(** * Local-unit reports over the IFRC GO API

    A shallow embedding of the two report scripts of the repository,
    [extract_local_units.py] (the "simple" report, module [Simple]) and
    [extract_local_units_treemap.py] (the "treemap" report, module
    [Treemap]), and the properties their specification states about them.

    The network is an input of the model: the answer to the k-th GET of a
    listing URL is given by a function, so a run of a script is a pure
    function of those answers.  The [while True] loop of the fetcher is run
    with fuel; [None] means that the fuel ran out, never that the loop ended. *)

From Stdlib Require Import ZArith String Ascii List Lia.
From Stdlib Require Import Floats.PrimFloat Floats.FloatOps Floats.SpecFloat.
From Stdlib Require Import Numbers.Cyclic.Int63.Uint63.
From Stdlib Require Import Structures.OrderedTypeEx.
From stdpp Require Import base option list gmap strings sorting pretty.

(** ** Exceptions and fallible results *)

(** The exceptions that the scripts can meet.  [ConnectionError] and
    [HTTPError] are the two that their [except] clauses name;
    [ReadTimeout] stands for what [requests] raises besides them
    ([timeout=60] is passed to every GET); [KeyError] and [TypeError] are
    raised by the table library on a column that does not exist or does not
    hold numbers. *)
Inductive exn : Type :=
| ConnectionError
| HTTPError (status : Z)
| ReadTimeout
| KeyError (key : string)
| TypeError.

Inductive result (A : Type) : Type :=
| Ok (a : A)
| Raise (e : exn).
Arguments Ok {A} a.
Arguments Raise {A} e.

(** Sequencing: an exception ends the computation ([x ← r; k] below). *)
#[global] Instance result_ret : MRet result := @Ok.
#[global] Instance result_bind : MBind result := λ A B k r,
  match r with
  | Ok a => k a
  | Raise e => Raise e
  end.

(** [except requests.exceptions.ConnectionError] / [except
    requests.exceptions.HTTPError]: the exceptions that both scripts catch. *)
Definition caught (e : exn) : bool :=
  match e with
  | ConnectionError | HTTPError _ => true
  | _ => false
  end.

(** ** Data model: the JSON shapes that the scripts consume

    A field of a record is [None] when its key is missing or holds [null]:
    the scripts read it with [dict.get(key)], which gives [None] in both
    cases. *)

(** [{"name": str}] *)
Record TypeDetails : Type := { td_name : option string }.

(** A local unit: [{"type_details": {...} | null, "country": int | null}]. *)
Record LocalUnit : Type :=
  { lu_type_details : option TypeDetails;
    lu_country : option Z }.

(** A country: [{"id": int, "region": int}]. *)
Record Country : Type :=
  { c_id : option Z;
    c_region : option Z }.

(** One page of a listing: [{"count": int, "results": [...]}].  A field
    is [None] when its key is missing; the fetcher reads it with
    [data.get(key, default)]. *)
Record Page (A : Type) : Type :=
  { page_count : option Z;
    page_results : option (list A) }.
Arguments page_count {A} _.
Arguments page_results {A} _.

(** What one GET meets: no connection, no answer in time, or an HTTP
    response with a status and a body, which is the JSON of a page. *)
Inductive Response (A : Type) : Type :=
| Unreachable
| TimedOut
| Http (status : Z) (body : Page A).
Arguments Unreachable {A}.
Arguments TimedOut {A}.
Arguments Http {A} status body.

(** Truth value of a string: the empty string is false. *)
Definition truthy (s : string) : bool := negb (String.eqb s "").

(** ** The fetcher

    [fetch_all_local_units] (simple report) and [fetch_paginated] (treemap
    report) are the same loop; [server k offset] is the answer to the k-th
    GET of the listing, issued with [limit=LIMIT] and [offset]. *)

Definition LIMIT : Z := 50.

Section Fetcher.
Context {A : Type}.

(** [requests.get(...)] followed by [resp.raise_for_status()] and
    [resp.json()]: a status from 400 to 599 raises [HTTPError]. *)
Definition get (r : Response A) : result (Page A) :=
  match r with
  | Unreachable => Raise ConnectionError
  | TimedOut => Raise ReadTimeout
  | Http status body =>
      if bool_decide (400 ≤ status)%Z && bool_decide (status < 600)%Z
      then Raise (HTTPError status)
      else Ok body
  end.

Variable server : nat → Z → Response A.

(** The loop, from the state (requests issued so far, [offset],
    [all_results]).  The result carries the number of requests issued. *)
Fixpoint fetch_loop (fuel : nat) (requests : nat) (offset : Z)
    (all_results : list A) : option (result (list A) * nat) :=
  match fuel with
  | O => None
  | S fuel =>
      match get (server requests offset) with
      | Raise e => Some (Raise e, S requests)
      | Ok data =>
          let results := default [] (page_results data) in
          let all_results := all_results ++ results in
          let total := default 0%Z (page_count data) in
          let offset := (offset + LIMIT)%Z in
          if (offset >=? total)%Z || (length results =? 0)
          then Some (Ok all_results, S requests)
          else fetch_loop fuel (S requests) offset all_results
      end
  end.

Definition fetch (fuel : nat) : option (result (list A) * nat) :=
  fetch_loop fuel 0 0%Z [].

(** The k-th request of a fetch carries the offset [LIMIT * k]. *)
Definition nth_page (k : nat) : result (Page A) :=
  get (server k (LIMIT * Z.of_nat k)%Z).

(** The loop ends at its k-th request: the request fails, or the offset
    reached after it is not below the count that the page reports, or the
    page holds no record. *)
Definition stops_at (k : nat) : Prop :=
  match nth_page k with
  | Raise _ => True
  | Ok data =>
      (default 0 (page_count data) ≤ LIMIT * Z.of_nat (S k))%Z
      ∨ default [] (page_results data) = []
  end.

(** What the fetch returns when it ends at its k-th request. *)
Definition outcome_at (k : nat) (pages_before : list A) : result (list A) :=
  match nth_page k with
  | Raise e => Raise e
  | Ok data => Ok (pages_before ++ default [] (page_results data))
  end.

End Fetcher.

(** A mocked listing: the k-th GET is answered by the k-th page of [ps]
    with status 200, whatever its offset, and by [rest] once the pages are
    used up. *)
Definition mock {A : Type} (ps : list (Page A))
    (rest : nat → Z → Response A) : nat → Z → Response A :=
  λ k offset,
    match ps !! k with
    | Some p => Http 200 p
    | None => rest (k - length ps) offset
    end.

(** The records of a list of pages, in order. *)
Definition records_of {A : Type} (ps : list (Page A)) : list A :=
  concat (map (λ p, default [] (page_results p)) ps).

(** ** Strings as Python orders and prints them *)

(** [a <= b] on [str]: lexicographic by character code (on the bytes of
    UTF-8 text, which are ordered as its code points are). *)
Definition str_le (a b : string) : Prop := String.leb a b = true.

#[global] Instance str_le_dec : RelDecision str_le.
Proof. intros a b. unfold str_le. apply _. Defined.

(** [sorted(...)] on strings. *)
Definition sorted (l : list string) : list string := merge_sort str_le l.

(** ** Counters

    [collections.Counter]: a missing key reads as 0, and [counter[k] += 1]
    writes the count read plus one. *)
Section Counter.
Context `{Countable K}.

Definition counter_get (counter : gmap K nat) (k : K) : nat :=
  default 0 (counter !! k).

Definition incr (k : K) (counter : gmap K nat) : gmap K nat :=
  <[k := S (counter_get counter k)]> counter.

(** [sum(counter.values())] *)
Definition counter_total (counter : gmap K nat) : nat :=
  map_fold (λ _ n acc, n + acc) 0 counter.

End Counter.

(** The category key of a local unit, as both aggregators compute it:
    [type_details["name"] if type_details and type_details.get("name")
    else sentinel]. *)
Definition type_key (sentinel : string) (record : LocalUnit) : string :=
  match lu_type_details record with
  | Some type_details =>
      match td_name type_details with
      | Some name => if truthy name then name else sentinel
      | None => sentinel
      end
  | None => sentinel
  end.

(** ** Tables

    A [pandas.DataFrame] as the scripts use it: a number of rows and named
    columns of cells, in column order. *)
Inductive Cell : Type :=
| Str (s : string)
| Int (n : Z)
| Float (x : float).

Record DataFrame : Type :=
  { df_len : nat;
    df_columns : list (string * list Cell) }.

(** Lookup in a list of bindings, first binding first (a row [dict], the
    columns of a table, the [env_counts] of the simple report). *)
Fixpoint assoc {V : Type} (k : string) (l : list (string * V)) : option V :=
  match l with
  | [] => None
  | (k', v) :: l => if decide (k' = k) then Some v else assoc k l
  end.

(** The keys of a list of rows, each once, in the order of first sight. *)
Fixpoint first_seen (seen : list string) (l : list string) : list string :=
  match l with
  | [] => []
  | x :: l =>
      if decide (x ∈ seen) then first_seen seen l
      else x :: first_seen (x :: seen) l
  end.

(** [pd.DataFrame(rows)] for a list of row dicts: no row gives no column;
    a key that a row lacks reads as NaN. *)
Definition DataFrame_of_rows (rows : list (list (string * Cell))) : DataFrame :=
  {| df_len := length rows;
     df_columns :=
       map (λ c, (c, map (λ row, default (Float nan) (assoc c row)) rows))
           (first_seen [] (concat (map (map fst) rows))) |}.

(** [df[col]]: [KeyError] when the table has no such column. *)
Definition df_get (df : DataFrame) (col : string) : result (list Cell) :=
  match assoc col (df_columns df) with
  | Some cells => Ok cells
  | None => Raise (KeyError col)
  end.

(** The cells of a column as integers, resp. strings; arithmetic or string
    order on anything else is a [TypeError]. *)
Definition ints (cells : list Cell) : result (list Z) :=
  mapM (λ c, match c with Int n => Ok n | _ => Raise TypeError end) cells.

Definition strs (cells : list Cell) : result (list string) :=
  mapM (λ c, match c with Str s => Ok s | _ => Raise TypeError end) cells.

(** [df[col] = cells]: replaces the column in place, or adds it last. *)
Fixpoint set_column (cols : list (string * list Cell)) (col : string)
    (cells : list Cell) : list (string * list Cell) :=
  match cols with
  | [] => [(col, cells)]
  | (c, old) :: cols =>
      if decide (c = col) then (col, cells) :: cols
      else (c, old) :: set_column cols col cells
  end.

Definition df_set (df : DataFrame) (col : string) (cells : list Cell)
    : DataFrame :=
  {| df_len := df_len df;
     df_columns := set_column (df_columns df) col cells |}.

(** [df[col] = 0]: the scalar fills the column. *)
Definition df_set_scalar (df : DataFrame) (col : string) (c : Cell)
    : DataFrame :=
  df_set df col (replicate (df_len df) c).

(** A workbook: its sheets by name, in the order written. *)
Definition Workbook : Type := list (string * DataFrame).

(** ** Floating point, as [numpy] computes the derived columns *)

(** int64 to float64. *)
Definition float_of_int (n : Z) : float :=
  if (n <? 0)%Z then (- PrimFloat.of_uint63 (Uint63.of_Z (- n)))%float
  else PrimFloat.of_uint63 (Uint63.of_Z n).

Definition two52 : float := 4503599627370496%float.

(** [numpy.rint]: the nearest integer, ties to even.  Below 2^52 in
    magnitude, adding and removing 2^52 rounds at the unit. *)
Definition rint (x : float) : float :=
  if (abs x <? two52)%float then
    if (x =? 0)%float then x
    else if (x <? 0)%float then (- (- x + two52 - two52))%float
    else (x + two52 - two52)%float
  else x.

(** [Series.round(decimals)]: [numpy] scales by the power of ten, rounds
    to the nearest integer and scales back; [round(0)] is [rint]. *)
Definition round2 (x : float) : float := (rint (x * 100) / 100)%float.

(** [astype(int)]: truncation to int64 (the value that [numpy] gives for
    NaN and the infinities on x86-64 is the least int64). *)
Definition astype_int (x : float) : Z :=
  match Prim2SF x with
  | S754_zero _ => 0
  | S754_finite s m e =>
      let v := if (0 <=? e)%Z then (Z.pos m * 2 ^ e)%Z
               else (Z.pos m / 2 ^ (- e))%Z in
      if s then (- v)%Z else v
  | S754_infinity _ | S754_nan => (- 2 ^ 63)%Z
  end.

(** [count / total * 100] on an int64 column and an int64 total. *)
Definition share (count total : Z) : float :=
  (float_of_int count / float_of_int total * 100)%float.

(** ** Standard output and files: the state that a run changes *)

(** The lines that decide or report the course of a run (the progress
    lines of the scripts are left out). *)
Inductive Line : Type :=
| WarnUnreachable (env_name : string)
| WarnHTTP (env_name : string) (e : exn)
| WarnUnmapped (country_ids : gset (option Z))
| NoEnvironment
| Saved (file : string).

Record State : Type :=
  { stdout : list Line;
    files : gmap string Workbook }.

Definition print (l : Line) (st : State) : State :=
  {| stdout := stdout st ++ [l]; files := files st |}.

(** Writing a workbook replaces any file of that name. *)
Definition write_file (file : string) (wb : Workbook) (st : State) : State :=
  {| stdout := stdout st; files := <[file := wb]> (files st) |}.

(** ** The simple report: [extract_local_units.py] *)
Module Simple.

Definition ENVIRONMENTS : list (string * string) :=
  [("production", "https://goadmin.ifrc.org/api/v2/local-units/");
   ("staging", "https://goadmin-stage.ifrc.org/api/v2/local-units/")].

Definition OUTPUT_FILE : string := "local_units_summary.xlsx".

(** The answers of the network: by listing URL, then as for [fetch]. *)
Definition World : Type := string → nat → Z → Response LocalUnit.

Definition fetch_all_local_units (w : World) (fuel : nat) (base_url : string)
    : option (result (list LocalUnit)) :=
  fst <$> fetch (w base_url) fuel.

Definition count_types (records : list LocalUnit) : gmap string nat :=
  foldl (λ counter record, incr (type_key "Unknown / No Type" record) counter)
        ∅ records.

(** The first loop of [main]: [env_counts] gets the tally of every
    environment whose fetch succeeds; the two exceptions caught print a
    warning and skip the environment; any other exception leaves [main]. *)
Fixpoint fetch_environments (w : World) (fuel : nat)
    (envs : list (string * string))
    (env_counts : list (string * gmap string nat)) (st : State)
    : option (result (list (string * gmap string nat)) * State) :=
  match envs with
  | [] => Some (Ok env_counts, st)
  | (env_name, base_url) :: envs =>
      match fetch_all_local_units w fuel base_url with
      | None => None
      | Some (Ok records) =>
          let counts := count_types records in
          fetch_environments w fuel envs (env_counts ++ [(env_name, counts)]) st
      | Some (Raise ConnectionError) =>
          fetch_environments w fuel envs env_counts
            (print (WarnUnreachable env_name) st)
      | Some (Raise (HTTPError status)) =>
          fetch_environments w fuel envs env_counts
            (print (WarnHTTP env_name (HTTPError status)) st)
      | Some (Raise e) => Some (Raise e, st)
      end
  end.

(** The sorted union of the key sets of all tallies of [env_counts]. *)
Definition all_types (env_counts : list (string * gmap string nat))
    : list string :=
  sorted (elements (⋃ (map (λ c, dom c.2) env_counts) : gset string)).

(** One row dict per type name: the name, and a count for each
    environment of [ENVIRONMENTS] that is in [env_counts]. *)
Definition row (envs : list (string * string))
    (env_counts : list (string * gmap string nat)) (type_name : string)
    : list (string * Cell) :=
  ("categories", Str type_name)
  :: omap (λ env, match assoc env.1 env_counts with
                  | Some counts =>
                      Some ("count_" +:+ env.1,
                            Int (Z.of_nat (counter_get counts type_name)))
                  | None => None
                  end) envs.

(** The body of the second loop: the percentage and waffle-cell columns of
    one environment. *)
Definition add_shares (df : DataFrame) (env_name : string) : result DataFrame :=
  let count_col := "count_" +:+ env_name in
  cells ← df_get df count_col;
  counts ← ints cells;
  let total := foldr Z.add 0%Z counts in
  let df :=
    if bool_decide (total ≠ 0%Z)
    then df_set df ("pct_" +:+ env_name)
           (map (λ n, Float (round2 (share n total))) counts)
    else df_set_scalar df ("pct_" +:+ env_name) (Int 0) in
  let df :=
    if bool_decide (total ≠ 0%Z)
    then df_set df ("waffle_cells_" +:+ env_name)
           (map (λ n, Int (astype_int (rint (share n total)))) counts)
    else df_set_scalar df ("waffle_cells_" +:+ env_name) (Int 0) in
  Ok df.

(** The table of the report, from the tallies of the reachable
    environments. *)
Definition build_table (envs : list (string * string))
    (env_counts : list (string * gmap string nat)) : result DataFrame :=
  let rows := map (row envs env_counts) (all_types env_counts) in
  let df := DataFrame_of_rows rows in
  foldl (λ df env, df ← df; add_shares df env.1) (Ok df) env_counts.

Definition main_over (envs : list (string * string)) (w : World) (fuel : nat)
    (st : State) : option (result unit * State) :=
  match fetch_environments w fuel envs [] st with
  | None => None
  | Some (Raise e, st) => Some (Raise e, st)
  | Some (Ok env_counts, st) =>
      match env_counts with
      | [] => Some (Ok (), print NoEnvironment st)
      | _ :: _ =>
          match build_table envs env_counts with
          | Raise e => Some (Raise e, st)
          | Ok df =>
              Some (Ok (),
                    print (Saved OUTPUT_FILE)
                      (write_file OUTPUT_FILE [("Local Unit Types", df)] st))
          end
      end
  end.

Definition main : World → nat → State → option (result unit * State) :=
  main_over ENVIRONMENTS.

End Simple.

(** ** The treemap report: [extract_local_units_treemap.py] *)
Module Treemap.

Record Urls : Type := { local_units : string; country : string }.

Definition ENVIRONMENTS : list (string * Urls) :=
  [("production",
    {| local_units := "https://goadmin.ifrc.org/api/v2/local-units/";
       country := "https://goadmin.ifrc.org/api/v2/country/" |});
   ("staging",
    {| local_units := "https://goadmin-stage.ifrc.org/api/v2/local-units/";
       country := "https://goadmin-stage.ifrc.org/api/v2/country/" |})].

Definition REGION_MAP : gmap Z string :=
  list_to_map
    [(0%Z, "Africa"); (1%Z, "Americas"); (2%Z, "Asia Pacific");
     (3%Z, "Europe"); (4%Z, "MENA")].

Definition OUTPUT_FILE : string := "local_units_treemap.xlsx".

(** The answers of the network, for the two kinds of listing. *)
Record World : Type :=
  { local_units_at : string → nat → Z → Response LocalUnit;
    countries_at : string → nat → Z → Response Country }.

Definition fetch_paginated {A : Type} (listing : string → nat → Z → Response A)
    (fuel : nat) (base_url : string) : option (result (list A)) :=
  fst <$> fetch (listing base_url) fuel.

(** [REGION_MAP.get(region_id, f"Unknown ({region_id})")] *)
Definition region_name_of (region_id : Z) : string :=
  default ("Unknown (" +:+ pretty region_id +:+ ")") (REGION_MAP !! region_id).

Definition build_country_to_region (countries : list Country) : gmap Z string :=
  foldl (λ mapping c,
           match c_id c, c_region c with
           | Some country_id, Some region_id =>
               <[country_id := region_name_of region_id]> mapping
           | _, _ => mapping
           end)
        ∅ countries.

(** [country_to_region.get(country_id)]: no key of the mapping is [None]. *)
Definition region_of (country_to_region : gmap Z string)
    (country_id : option Z) : option string :=
  country_id ≫= λ i, country_to_region !! i.

(** Step 3 of [process_environment]: the body of the loop over the local
    units, on the pair ([type_region_counter], [unresolved_countries]). *)
Definition count_unit (country_to_region : gmap Z string)
    (acc : gmap (string * string) nat * gset (option Z)) (unit : LocalUnit)
    : gmap (string * string) nat * gset (option Z) :=
  let type_name := type_key "Unknown Type" unit in
  let country_id := lu_country unit in
  match region_of country_to_region country_id with
  | None =>
      (incr (type_name, "Unknown Region") acc.1, {[country_id]} ∪ acc.2)
  | Some region_name => (incr (type_name, region_name) acc.1, acc.2)
  end.

Definition count_by_type_region (country_to_region : gmap Z string)
    (local_units : list LocalUnit)
    : gmap (string * string) nat * gset (option Z) :=
  foldl (count_unit country_to_region) (∅, ∅) local_units.

(** Order of the items of the counter, as tuples compare: by type name,
    then region name, then count. *)
Definition item_le (a b : string * string * nat) : Prop :=
  match String.compare a.1.1 b.1.1 with
  | Lt => True
  | Gt => False
  | Eq =>
      match String.compare a.1.2 b.1.2 with
      | Lt => True
      | Gt => False
      | Eq => a.2 ≤ b.2
      end
  end.

#[global] Instance item_le_dec : RelDecision item_le.
Proof.
  intros a b. unfold item_le.
  destruct (String.compare a.1.1 b.1.1); [|apply _..].
  destruct (String.compare a.1.2 b.1.2); apply _.
Defined.

(** Order of the rows in [sort_values]: by the key cells, then by the
    position in the table (the sort is stable). *)
Fixpoint compare_keys (a b : list string) : comparison :=
  match a, b with
  | [], [] => Eq
  | [], _ :: _ => Lt
  | _ :: _, [] => Gt
  | x :: a, y :: b =>
      match String.compare x y with
      | Eq => compare_keys a b
      | c => c
      end
  end.

Definition key_le (a b : list string * nat) : Prop :=
  match compare_keys a.1 b.1 with
  | Lt => True
  | Gt => False
  | Eq => a.2 ≤ b.2
  end.

#[global] Instance key_le_dec : RelDecision key_le.
Proof. intros a b. unfold key_le. destruct (compare_keys a.1 b.1); apply _. Defined.

(** [df.sort_values(by).reset_index(drop=True)] on string columns:
    [KeyError] when a column of [by] is missing, also in a table without
    rows. *)
Definition sort_values (df : DataFrame) (by_ : list string) : result DataFrame :=
  keys ← mapM (λ col, cells ← df_get df col; strs cells) by_;
  let key_of i := omap (λ cells : list string, cells !! i) keys in
  let indexer :=
    map snd (merge_sort key_le (map (λ i, (key_of i, i)) (seq 0 (df_len df)))) in
  Ok {| df_len := df_len df;
        df_columns :=
          map (λ col, (col.1, omap (λ i, col.2 !! i) indexer))
              (df_columns df) |}.

(** The [except] clauses of [process_environment]. *)
Definition handler (env_name : string) (e : exn) (st : State)
    : result (option DataFrame) * State :=
  match e with
  | ConnectionError => (Ok None, print (WarnUnreachable env_name) st)
  | HTTPError status => (Ok None, print (WarnHTTP env_name e) st)
  | _ => (Raise e, st)
  end.

Definition process_environment (w : World) (fuel : nat) (env_name : string)
    (urls : Urls) (st : State) : option (result (option DataFrame) * State) :=
  match fetch_paginated (countries_at w) fuel (country urls) with
  | None => None
  | Some (Raise e) => Some (handler env_name e st)
  | Some (Ok countries) =>
      let country_to_region := build_country_to_region countries in
      match fetch_paginated (local_units_at w) fuel (local_units urls) with
      | None => None
      | Some (Raise e) => Some (handler env_name e st)
      | Some (Ok units) =>
          let counted := count_by_type_region country_to_region units in
          let type_region_counter := counted.1 in
          let unresolved_countries := counted.2 in
          let st :=
            if decide (unresolved_countries = ∅) then st
            else print (WarnUnmapped unresolved_countries) st in
          let rows :=
            map (λ item : string * string * nat,
                   [("categories", Str item.1.1); ("Region", Str item.1.2);
                    ("count", Int (Z.of_nat item.2))])
                (merge_sort item_le (map_to_list type_region_counter)) in
          let df := DataFrame_of_rows rows in
          match sort_values df ["categories"; "Region"] with
          | Raise e => Some (handler env_name e st)
          | Ok df => Some (Ok (Some df), st)
          end
      end
  end.

(** [str.capitalize] on the (ASCII) environment names. *)
Definition upper (c : ascii) : ascii :=
  let n := nat_of_ascii c in
  if (97 <=? n) && (n <=? 122) then ascii_of_nat (n - 32) else c.

Definition lower (c : ascii) : ascii :=
  let n := nat_of_ascii c in
  if (65 <=? n) && (n <=? 90) then ascii_of_nat (n + 32) else c.

Fixpoint lowered (s : string) : string :=
  match s with
  | EmptyString => EmptyString
  | String c s => String (lower c) (lowered s)
  end.

Definition capitalize (s : string) : string :=
  match s with
  | EmptyString => EmptyString
  | String c s => String (upper c) (lowered s)
  end.

(** The loop of [main]: [all_sheets] gets the table of every environment
    that [process_environment] returns one for. *)
Fixpoint process_environments (w : World) (fuel : nat)
    (envs : list (string * Urls)) (all_sheets : list (string * DataFrame))
    (st : State) : option (result (list (string * DataFrame)) * State) :=
  match envs with
  | [] => Some (Ok all_sheets, st)
  | (env_name, urls) :: envs =>
      match process_environment w fuel env_name urls st with
      | None => None
      | Some (Raise e, st) => Some (Raise e, st)
      | Some (Ok None, st) => process_environments w fuel envs all_sheets st
      | Some (Ok (Some df), st) =>
          process_environments w fuel envs (all_sheets ++ [(env_name, df)]) st
      end
  end.

Definition main_over (envs : list (string * Urls)) (w : World) (fuel : nat)
    (st : State) : option (result unit * State) :=
  match process_environments w fuel envs [] st with
  | None => None
  | Some (Raise e, st) => Some (Raise e, st)
  | Some (Ok all_sheets, st) =>
      match all_sheets with
      | [] => Some (Ok (), print NoEnvironment st)
      | _ :: _ =>
          Some (Ok (),
                print (Saved OUTPUT_FILE)
                  (write_file OUTPUT_FILE
                     (map (λ sheet, (capitalize sheet.1, sheet.2)) all_sheets)
                     st))
      end
  end.

Definition main : World → nat → State → option (result unit * State) :=
  main_over ENVIRONMENTS.

End Treemap.

(** ** Notions used to state the properties *)

Section Delivered.
Context {A : Type}.
Variable server : nat → Z → Response A.

(** The records of the pages before the k-th, in order. *)
Fixpoint delivered (k : nat) : list A :=
  match k with
  | O => []
  | S k =>
      delivered k ++
      match nth_page server k with
      | Ok data => default [] (page_results data)
      | Raise _ => []
      end
  end.

End Delivered.

(** A local unit without type and country. *)
Definition some_unit : LocalUnit :=
  {| lu_type_details := None; lu_country := None |}.

(** A listing whose reported count stays ahead of the offset: every page
    holds one record and reports 100 more records than the offset asked. *)
Definition growing : nat → Z → Response LocalUnit :=
  λ _ offset,
    Http 200 {| page_count := Some (offset + 100)%Z;
                page_results := Some [some_unit] |}.

(** A page as a well-behaved server sends it. *)
Definition page_of {A : Type} (total : Z) (records : list A) : Page A :=
  {| page_count := Some total; page_results := Some records |}.

(** A tally by [key]: every record adds one to the count of its key. *)
Definition tally `{Countable K} {R : Type} (key : R → K)
    (counter : gmap K nat) (records : list R) : gmap K nat :=
  foldl (λ counter record, incr (key record) counter) counter records.

(** A record names a type: [type_details] is present and its name is a
    non-empty string. *)
Definition names_type (record : LocalUnit) (name : string) : Prop :=
  ∃ type_details,
    lu_type_details record = Some type_details
    ∧ td_name type_details = Some name
    ∧ name ≠ "".

(** The state before a run in an empty directory. *)
Definition fresh : State := {| stdout := []; files := ∅ |}.

(** The region key of a local unit under a mapping, and the key of the
    treemap tally. *)
Definition region_key (country_to_region : gmap Z string) (unit : LocalUnit)
    : string :=
  default "Unknown Region"
    (Treemap.region_of country_to_region (lu_country unit)).

Definition type_region_key (country_to_region : gmap Z string)
    (unit : LocalUnit) : string * string :=
  (type_key "Unknown Type" unit, region_key country_to_region unit).

(** The region code of the last country of the list that has the id [i]
    and a region code. *)
Definition last_region (countries : list Country) (i : Z) : option Z :=
  last (omap (λ c, match c_id c, c_region c with
                   | Some j, Some region_id =>
                       if decide (j = i) then Some region_id else None
                   | _, _ => None
                   end) countries).

(** The tally of the environment at [base_url], when its fetch succeeds. *)
Definition tally_of (w : Simple.World) (fuel : nat) (base_url : string)
    : option (gmap string nat) :=
  match Simple.fetch_all_local_units w fuel base_url with
  | Some (Ok records) => Some (Simple.count_types records)
  | _ => None
  end.

(** The environments fetched successfully, with their tallies, in the
    order of [envs]. *)
Definition tallies (w : Simple.World) (fuel : nat)
    (envs : list (string * string)) : list (string * gmap string nat) :=
  omap (λ env, (λ counts, (env.1, counts)) <$> tally_of w fuel env.2) envs.

(** The warning that the simple report prints for an environment. *)
Definition warning_of (w : Simple.World) (fuel : nat) (env : string * string)
    : option Line :=
  match Simple.fetch_all_local_units w fuel env.2 with
  | Some (Raise ConnectionError) => Some (WarnUnreachable env.1)
  | Some (Raise (HTTPError status)) =>
      Some (WarnHTTP env.1 (HTTPError status))
  | _ => None
  end.

(** The fetch of an environment ends, with records or with an exception
    that the script catches. *)
Definition settled (w : Simple.World) (fuel : nat) (base_url : string) : Prop :=
  match Simple.fetch_all_local_units w fuel base_url with
  | Some (Ok _) => True
  | Some (Raise e) => caught e = true
  | None => False
  end.

(** The state after the first loop of the simple report: the warnings of
    the environments skipped are printed, no file is touched. *)
Definition warned (w : Simple.World) (fuel : nat)
    (envs : list (string * string)) (st : State) : State :=
  {| stdout := stdout st ++ omap (warning_of w fuel) envs; files := files st |}.

(** The cells of the report, as the specification words them. *)
Definition count_cells (types : list string) (counts : gmap string nat)
    : list Z :=
  (λ type_name, Z.of_nat (counter_get counts type_name)) <$> types.

Definition pct_cell (total n : Z) : Cell :=
  if bool_decide (total ≠ 0%Z) then Float (round2 (share n total)) else Int 0.

Definition waffle_cell (total n : Z) : Cell :=
  if bool_decide (total ≠ 0%Z) then Int (astype_int (rint (share n total)))
  else Int 0.

Definition count_column (types : list string) (p : string * gmap string nat)
    : string * list Cell :=
  ("count_" +:+ p.1, Int <$> count_cells types p.2).

Definition share_columns (types : list string) (p : string * gmap string nat)
    : list (string * list Cell) :=
  let counts := count_cells types p.2 in
  let total := foldr Z.add 0%Z counts in
  [("pct_" +:+ p.1, pct_cell total <$> counts);
   ("waffle_cells_" +:+ p.1, waffle_cell total <$> counts)].

(** The table after the derived columns of the environments [done_] have
    been added. *)
Definition shared_table (types : list string)
    (env_counts done_ : list (string * gmap string nat)) : DataFrame :=
  {| df_len := length types;
     df_columns :=
       (("categories", Str <$> types) :: (count_column types <$> env_counts))
       ++ concat (share_columns types <$> done_) |}.

(** The table of the simple report for the row index [types] and the
    tallies [env_counts]. *)
Definition report_table (types : list string)
    (env_counts : list (string * gmap string nat)) : DataFrame :=
  {| df_len := length types;
     df_columns :=
       ("categories", Str <$> types)
       :: (count_column types <$> env_counts)
       ++ concat (share_columns types <$> env_counts) |}.

(** ** Example inputs *)

Definition unit_of_type (name : string) : LocalUnit :=
  {| lu_type_details := Some {| td_name := Some name |}; lu_country := None |}.

(** Production cannot be reached; staging answers every request with one
    page holding [records] and their number as count. *)
Definition staging_only (records : list LocalUnit) : Simple.World :=
  λ base_url _ _,
    if decide (base_url = "https://goadmin.ifrc.org/api/v2/local-units/")
    then Unreachable
    else Http 200 (page_of (Z.of_nat (length records)) records).

(** Three local units of type "A" and one of type "B". *)
Definition three_A_one_B : list LocalUnit :=
  [unit_of_type "A"; unit_of_type "B"; unit_of_type "A"; unit_of_type "A"].

(** No environment can be reached. *)
Definition nothing_reachable : Simple.World := λ _ _ _, Unreachable.

(** The state in which a run ends ([fresh] when it does not). *)
Definition state_after (run : option (result unit * State)) : State :=
  match run with
  | Some (_, st) => st
  | None => fresh
  end.

(** Both environments answer every request with one page holding their
    records. *)
Definition both_reachable (production staging : list LocalUnit)
    : Simple.World :=
  λ base_url _ _,
    if decide (base_url = "https://goadmin.ifrc.org/api/v2/local-units/")
    then Http 200 (page_of (Z.of_nat (length production)) production)
    else Http 200 (page_of (Z.of_nat (length staging)) staging).

(** ** The treemap report: notions and example inputs *)

(** An environment of the treemap report cannot be fetched: the listing
    of its countries, or after it the listing of its local units, ends in
    an exception that the script catches. *)
Definition cannot_fetch (w : Treemap.World) (fuel : nat) (urls : Treemap.Urls)
    : Prop :=
  match Treemap.fetch_paginated (Treemap.countries_at w) fuel
          (Treemap.country urls) with
  | Some (Raise e) => caught e = true
  | Some (Ok _) =>
      match Treemap.fetch_paginated (Treemap.local_units_at w) fuel
              (Treemap.local_units urls) with
      | Some (Raise e) => caught e = true
      | _ => False
      end
  | None => False
  end.

(** Both listings of an environment are fetched, and some local unit is
    among the records. *)
Definition fetched_some (w : Treemap.World) (fuel : nat) (urls : Treemap.Urls)
    : Prop :=
  match Treemap.fetch_paginated (Treemap.countries_at w) fuel
          (Treemap.country urls),
        Treemap.fetch_paginated (Treemap.local_units_at w) fuel
          (Treemap.local_units urls) with
  | Some (Ok _), Some (Ok (_ :: _)) => True
  | _, _ => False
  end.

(** Production cannot be reached; staging lists [countries] and
    [local_units], each on one page. *)
Definition treemap_staging_only (countries : list Country)
    (local_units : list LocalUnit) : Treemap.World :=
  {| Treemap.local_units_at := λ base_url _ _,
       if decide (base_url = "https://goadmin.ifrc.org/api/v2/local-units/")
       then Unreachable
       else Http 200 (page_of (Z.of_nat (length local_units)) local_units);
     Treemap.countries_at := λ base_url _ _,
       if decide (base_url = "https://goadmin.ifrc.org/api/v2/country/")
       then Unreachable
       else Http 200 (page_of (Z.of_nat (length countries)) countries) |}.

(** No environment of the treemap report can be reached. *)
Definition treemap_nothing_reachable : Treemap.World :=
  {| Treemap.local_units_at := λ _ _ _, Unreachable;
     Treemap.countries_at := λ _ _ _, Unreachable |}.

(** The sheet of the treemap report for the items of a counter: a row per
    item, with its type name, its region name and its count. *)
Definition sheet_of (items : list (string * string * nat)) : DataFrame :=
  {| df_len := length items;
     df_columns :=
       [("categories", Str <$> ((λ item, item.1.1) <$> items));
        ("Region", Str <$> ((λ item, item.1.2) <$> items));
        ("count", Int <$> ((λ item, Z.of_nat item.2) <$> items))] |}.

(** [(type, region)] pairs in the order of the sheet: by type name, then
    by region name, both by character code. *)
Definition pair_lt (a b : string * string) : Prop :=
  String.compare a.1 b.1 = Lt
  ∨ (a.1 = b.1 ∧ String.compare a.2 b.2 = Lt).

(** Production cannot be reached; every request to staging runs into the
    timeout. *)
Definition staging_times_out : Simple.World :=
  λ base_url _ _,
    if decide (base_url = "https://goadmin.ifrc.org/api/v2/local-units/")
    then Unreachable
    else TimedOut.

(** A working directory that holds a workbook of another name. *)
Definition with_notes : State :=
  {| stdout := []; files := {["notes.xlsx" := []]} |}.

(** The treemap report, with staging's listing of local units running
    into the timeout after its countries were listed. *)
Definition treemap_staging_times_out : Treemap.World :=
  {| Treemap.local_units_at := λ base_url _ _,
       if decide (base_url = "https://goadmin.ifrc.org/api/v2/local-units/")
       then Unreachable
       else TimedOut;
     Treemap.countries_at := λ base_url _ _,
       if decide (base_url = "https://goadmin.ifrc.org/api/v2/country/")
       then Unreachable
       else Http 200 (page_of 0 []) |}.

(** An environment of the treemap report whose processing ends in an
    exception that the script does not catch, raised by the listing of its
    countries or, after it, by the listing of its local units. *)
Definition fetch_escapes (w : Treemap.World) (fuel : nat) (urls : Treemap.Urls)
    (e : exn) : Prop :=
  caught e = false
  ∧ (Treemap.fetch_paginated (Treemap.countries_at w) fuel
       (Treemap.country urls) = Some (Raise e)
     ∨ (∃ countries,
          Treemap.fetch_paginated (Treemap.countries_at w) fuel
            (Treemap.country urls) = Some (Ok countries)
          ∧ Treemap.fetch_paginated (Treemap.local_units_at w) fuel
              (Treemap.local_units urls) = Some (Raise e))).

(** * Properties

    ** The fetcher *)

Section FetcherFacts.
Context {A : Type}.
Variable server : nat → Z → Response A.

#[global] Instance stops_at_dec k : Decision (stops_at server k).
Proof.
  unfold stops_at. destruct (nth_page server k) as [data|e]; [|apply _].
  destruct (default [] (page_results data)) as [|x l].
  - left. by right.
  - destruct (decide (default 0 (page_count data) ≤ LIMIT * Z.of_nat (S k))%Z).
    + left. by left.
    + right. intros [?|?]; [done|discriminate].
Defined.

Lemma fetch_loop_stop fuel k acc :
  stops_at server k →
  fetch_loop server (S fuel) k (LIMIT * Z.of_nat k) acc
  = Some (outcome_at server k acc, S k).
Proof.
  unfold stops_at, outcome_at, nth_page. simpl.
  destruct (get _) as [data|e]; [|done].
  intros Hstop.
  replace (LIMIT * Z.of_nat k + LIMIT)%Z with (LIMIT * Z.of_nat (S k))%Z by lia.
  destruct Hstop as [Hc|He].
  - apply Z.geb_le in Hc. by rewrite Hc.
  - rewrite He. simpl. by rewrite orb_true_r.
Qed.

Lemma fetch_loop_continue fuel k acc :
  ¬ stops_at server k →
  fetch_loop server (S fuel) k (LIMIT * Z.of_nat k) acc
  = fetch_loop server fuel (S k) (LIMIT * Z.of_nat (S k))
      (acc ++ match nth_page server k with
              | Ok data => default [] (page_results data)
              | Raise _ => []
              end).
Proof.
  unfold stops_at, nth_page. simpl.
  destruct (get _) as [data|e]; [|tauto].
  intros Hgo.
  replace (LIMIT * Z.of_nat k + LIMIT)%Z with (LIMIT * Z.of_nat (S k))%Z by lia.
  destruct (_ >=? _)%Z eqn:Hc.
  { exfalso. apply Hgo. left. by apply Z.geb_le. }
  destruct (length _ =? 0) eqn:He; [|done].
  exfalso. apply Hgo. right. apply Nat.eqb_eq in He. by apply nil_length_inv.
Qed.

Lemma fetch_run n fuel :
  (∀ j, j < n → ¬ stops_at server j) →
  fetch server (n + fuel)
  = fetch_loop server fuel n (LIMIT * Z.of_nat n) (delivered server n).
Proof.
  unfold fetch. revert fuel. induction n as [|n IH]; intros fuel Hgo.
  - done.
  - replace (S n + fuel) with (n + S fuel) by lia.
    rewrite IH by (intros; apply Hgo; lia).
    rewrite fetch_loop_continue by (apply Hgo; lia). done.
Qed.

Lemma first_stop k :
  stops_at server k →
  ∃ n, n ≤ k ∧ stops_at server n ∧ ∀ j, j < n → ¬ stops_at server j.
Proof.
  induction k as [k IH] using lt_wf_ind. intros Hk.
  destruct (decide (Exists (stops_at server) (seq 0 k))) as [Hsome|Hnone].
  - apply Exists_exists in Hsome as (j & Hj & Hs).
    apply elem_of_seq in Hj.
    destruct (IH j ltac:(lia) Hs) as (n & ? & ? & ?).
    exists n. split_and!; [lia|done..].
  - exists k. split_and!; [done..|]. intros j Hj Hs. apply Hnone.
    apply Exists_exists. exists j. split; [|done]. apply elem_of_seq. lia.
Qed.

(** Counts bounded by [B] are reached by the offset. *)
Lemma bounded_counts_stop (B : Z) :
  (∀ k data, nth_page server k = Ok data → (default 0 (page_count data) ≤ B)%Z) →
  stops_at server (Z.to_nat (B / LIMIT)).
Proof.
  intros Hb. unfold stops_at.
  destruct (nth_page server _) as [data|e] eqn:Hp; [|done].
  left. specialize (Hb _ _ Hp). unfold LIMIT in *.
  destruct (decide (B < 0)%Z).
  - assert (B / 50 < 0)%Z by (apply Z.div_lt_upper_bound; lia). lia.
  - assert (0 ≤ B / 50)%Z by (apply Z.div_pos; lia).
    pose proof (Z.mod_pos_bound B 50 ltac:(lia)).
    pose proof (Z.div_mod B 50 ltac:(lia)). lia.
Qed.

(** C2, where it holds.  For every sequence of page responses in which some
    request stops the loop (the request fails, or its page holds no
    record, or the offset reached after it is not below the count that the
    page reports), and so for every sequence whose reported counts are
    bounded, whatever the number of records delivered, the fetcher ends:
    with more fuel than the index of the first request that stops the loop
    it returns, having requested the pages up to that one and none after
    it. *)
Theorem fetch_ends_at_first_stop :
  (∃ k, stops_at server k)
  ∨ (∃ B, ∀ k data,
        nth_page server k = Ok data → (default 0 (page_count data) ≤ B)%Z) →
  ∃ n, stops_at server n ∧ (∀ j, j < n → ¬ stops_at server j) ∧
    ∀ fuel, n < fuel →
      fetch server fuel = Some (outcome_at server n (delivered server n), S n).
Proof.
  intros Hstops.
  assert (∃ k, stops_at server k) as [k Hk].
  { destruct Hstops as [?|[B HB]]; [done|].
    eexists. by apply (bounded_counts_stop B). }
  destruct (first_stop k Hk) as (n & _ & Hn & Hbefore).
  exists n. split_and!; [done..|]. intros fuel Hfuel.
  replace fuel with (n + S (fuel - S n)) by lia.
  rewrite fetch_run by done. by apply fetch_loop_stop.
Qed.

End FetcherFacts.

Lemma fetch_loop_growing fuel k offset acc :
  fetch_loop growing fuel k offset acc = None.
Proof.
  revert k offset acc. induction fuel as [|fuel IH]; intros k offset acc; [done|].
  simpl. replace (offset + LIMIT >=? offset + 100)%Z with false; [apply IH|].
  symmetry. rewrite Z.geb_leb. apply Z.leb_gt. unfold LIMIT. lia.
Qed.

(** C2, as it is stated, fails: there is a sequence of page responses, all
    with status 200 and one record, on which the fetcher never returns,
    whatever the fuel; its reported count stays ahead of the offset. *)
Lemma growing_count_is_fetched_forever :
  ∃ server : nat → Z → Response LocalUnit,
    (∀ k offset, ∃ total record,
        server k offset
        = Http 200 {| page_count := Some total; page_results := Some [record] |})
    ∧ ∀ fuel, fetch server fuel = None.
Proof.
  exists growing. split; [intros k offset; by eexists _, _|].
  intros fuel. apply fetch_loop_growing.
Qed.

Section MockFacts.
Context {A : Type}.
Implicit Types (ps : list (Page A)) (rest : nat → Z → Response A).

Lemma nth_page_mock ps rest k p :
  ps !! k = Some p → nth_page (mock ps rest) k = Ok p.
Proof. intros Hk. unfold nth_page, mock. by rewrite Hk. Qed.

Lemma delivered_mock ps rest k :
  k ≤ length ps → delivered (mock ps rest) k = records_of (take k ps).
Proof.
  induction k as [|k IH]; intros Hk; [done|].
  destruct (lookup_lt_is_Some_2 ps k ltac:(lia)) as [p Hp].
  simpl. rewrite IH by lia. rewrite (nth_page_mock _ _ _ _ Hp).
  rewrite (take_S_r _ _ _ Hp). unfold records_of.
  rewrite map_app, concat_app. simpl. by rewrite app_nil_r.
Qed.

(** C3, where it holds.  For every mocked sequence of n >= 1 pages that
    all report the same count, whose [results] sum to that count, whose
    pages other than the last hold a record, and whose number fits the
    count ([LIMIT * (n - 1) < count] unless n = 1, and
    [count <= LIMIT * n], as when the server cuts the pages at the limit),
    the fetcher returns all the records, [count] of them, in page order,
    and issues n requests, so none after the last page. *)
Theorem mock_pages_are_fetched_whole ps rest (count : Z) :
  ps ≠ [] →
  (∀ p, p ∈ ps → page_count p = Some count) →
  Z.of_nat (length (records_of ps)) = count →
  (∀ i p, ps !! i = Some p → S i < length ps →
          default [] (page_results p) ≠ []) →
  (length ps = 1 ∨ (LIMIT * (Z.of_nat (length ps) - 1) < count)%Z) →
  (count ≤ LIMIT * Z.of_nat (length ps))%Z →
  ∀ fuel, length ps ≤ fuel →
    fetch (mock ps rest) fuel = Some (Ok (records_of ps), length ps)
    ∧ Z.of_nat (length (records_of ps)) = count.
Proof.
  intros Hne Hcount Hsum Hfull Hmany Hlast fuel Hfuel. split; [|done].
  destruct (length ps) as [|n] eqn:Hlen; [by destruct ps|].
  replace fuel with (n + S (fuel - S n)) by lia.
  rewrite fetch_run.
  - destruct (lookup_lt_is_Some_2 ps n ltac:(lia)) as [p Hp].
    rewrite fetch_loop_stop.
    + unfold outcome_at. rewrite (nth_page_mock _ _ _ _ Hp).
      rewrite delivered_mock by lia. do 3 f_equal.
      rewrite <- (take_drop n ps) at 2.
      rewrite (drop_S _ _ _ Hp), drop_ge by lia.
      unfold records_of. rewrite map_app, concat_app. simpl.
      by rewrite app_nil_r.
    + unfold stops_at. rewrite (nth_page_mock _ _ _ _ Hp). left.
      rewrite (Hcount p) by (by eapply list_elem_of_lookup_2). simpl. lia.
  - intros j Hj. unfold stops_at.
    destruct (lookup_lt_is_Some_2 ps j ltac:(lia)) as [p Hp].
    rewrite (nth_page_mock _ _ _ _ Hp).
    rewrite (Hcount p) by (by eapply list_elem_of_lookup_2). simpl.
    intros [Hc|He].
    + unfold LIMIT in *. lia.
    + by apply (Hfull j p Hp); [lia|].
Qed.

End MockFacts.

(** More fuel does not change the result of a fetch that has ended. *)
Lemma fetch_loop_more_fuel {A : Type} (server : nat → Z → Response A)
    fuel fuel' requests offset all_results r :
  fetch_loop server fuel requests offset all_results = Some r →
  fuel ≤ fuel' →
  fetch_loop server fuel' requests offset all_results = Some r.
Proof.
  revert fuel' requests offset all_results.
  induction fuel as [|fuel IH]; intros fuel' requests offset all_results;
    [done|].
  intros Hrun Hle. destruct fuel' as [|fuel']; [lia|].
  simpl in *. destruct (get _) as [data|e]; [|done].
  destruct (_ || _); [done|]. apply IH; [done|lia].
Qed.

Lemma fetch_of_a_listing_without_end_ends :
  let server : nat → Z → Response LocalUnit :=
    λ _ _, Http 200 (page_of 120 [some_unit]) in
  (∃ n, stops_at server n ∧ (∀ j, j < n → ¬ stops_at server j) ∧
     ∀ fuel, n < fuel →
       fetch server fuel = Some (outcome_at server n (delivered server n), S n))
  ∧ fetch server 3 = Some (Ok [some_unit; some_unit; some_unit], 3).
Proof.
  intros server. split; [|by vm_compute].
  apply (fetch_ends_at_first_stop server). right. exists 120%Z.
  intros k data Hk. unfold nth_page, server in Hk. by simplify_eq/=.
Defined.

(** C3, as it is stated, fails: six pages of ten records, each reporting
    the count 60, sum to 60 records, and the fetcher returns the first 20,
    after two requests. *)
Lemma six_pages_of_ten_are_cut_short :
  let ps := replicate 6 (page_of 60 (replicate 10 some_unit)) in
  Z.of_nat (length (records_of ps)) = 60%Z
  ∧ fetch (mock ps (λ _ _, TimedOut)) 7
    = Some (Ok (replicate 20 some_unit), 2).
Proof. by vm_compute. Qed.

Lemma pages_of_50_and_10_are_fetched_whole :
  let ps := [page_of 60 (replicate 50 some_unit);
             page_of 60 (replicate 10 some_unit)] in
  fetch (mock ps (λ _ _, TimedOut)) 2 = Some (Ok (records_of ps), length ps)
  ∧ Z.of_nat (length (records_of ps)) = 60%Z.
Proof.
  intros ps.
  apply (mock_pages_are_fetched_whole ps (λ _ _, TimedOut) 60).
  - done.
  - intros p Hp. apply list_elem_of_In in Hp.
    destruct Hp as [<-|[<-|[]]]; done.
  - by vm_compute.
  - intros [|[|i]] p Hp Hi; simplify_eq/=; [done|lia..].
  - right. by vm_compute.
  - by vm_compute.
  - done.
Defined.

(** ** Counters and tallies *)

Section CounterFacts.
Context `{Countable K}.
Implicit Types (counter : gmap K nat) (k : K).

Lemma counter_total_insert counter k n :
  counter_total (<[k := n]> counter) + counter_get counter k
  = n + counter_total counter.
Proof.
  unfold counter_total, counter_get.
  destruct (counter !! k) as [old|] eqn:Hk; simpl.
  - rewrite <- (insert_delete_eq counter k n).
    rewrite (map_fold_delete_L _ _ k old counter); [|intros; lia|done].
    rewrite map_fold_insert_L; [lia|intros; lia|apply lookup_delete_eq].
  - rewrite map_fold_insert_L; [lia|intros; lia|done].
Qed.

Lemma counter_total_incr counter k :
  counter_total (incr k counter) = S (counter_total counter).
Proof.
  unfold incr. pose proof (counter_total_insert counter k (S (counter_get counter k))).
  lia.
Qed.

Lemma counter_get_incr counter k k' :
  counter_get (incr k counter) k'
  = if decide (k = k') then S (counter_get counter k') else counter_get counter k'.
Proof.
  unfold incr, counter_get at 1. rewrite lookup_insert.
  destruct (decide (k = k')) as [->|]; done.
Qed.

Lemma dom_incr counter k : dom (incr k counter) = {[k]} ∪ dom counter.
Proof. unfold incr. apply dom_insert_L. Qed.

(** A tally: every record adds one to the count of its key. *)
Section Tally.
Context {R : Type} (key : R → K).

Lemma tally_total counter records :
  counter_total (tally key counter records) = counter_total counter + length records.
Proof.
  revert counter. induction records as [|r records IH]; intros counter; simpl.
  - lia.
  - rewrite IH, counter_total_incr. lia.
Qed.

Lemma tally_get counter records k :
  counter_get (tally key counter records) k
  = counter_get counter k + length (filter (λ r, key r = k) records).
Proof.
  revert counter. induction records as [|r records IH]; intros counter; simpl.
  - lia.
  - rewrite IH, counter_get_incr, filter_cons.
    destruct (decide (key r = k)); simpl; lia.
Qed.

Lemma tally_dom counter records k :
  k ∈ dom (tally key counter records) ↔ k ∈ dom counter ∨ ∃ r, r ∈ records ∧ key r = k.
Proof.
  revert counter. induction records as [|r records IH]; intros counter; simpl.
  - split; [by left|]. intros [?|(r & Hr & _)]; [done|]. by apply elem_of_nil in Hr.
  - rewrite IH, dom_incr, elem_of_union, elem_of_singleton. split.
    + intros [[->|?]|(r' & Hr & <-)].
      * right. exists r. split; [left|done].
      * by left.
      * right. exists r'. split; [by right|done].
    + intros [?|(r' & [->|Hr]%elem_of_cons & <-)].
      * left. by right.
      * left. by left.
      * right. eauto.
Qed.

End Tally.
End CounterFacts.


Lemma counter_total_delete (counter : gmap string nat) (k : string) :
  counter_total counter
  = counter_get counter k + counter_total (delete k counter).
Proof.
  unfold counter_total, counter_get.
  destruct (counter !! k) as [n|] eqn:Hk; simpl.
  - by rewrite (map_fold_delete_L _ _ k n counter); [|intros; lia|].
  - by rewrite delete_id.
Qed.

Lemma counter_get_delete_ne (counter : gmap string nat) (k k' : string) :
  k ≠ k' → counter_get (delete k counter) k' = counter_get counter k'.
Proof. intros Hne. unfold counter_get. by rewrite lookup_delete_ne. Qed.

Lemma counter_get_0 (counter : gmap string nat) (k : string) :
  k ∉ dom counter → counter_get counter k = 0.
Proof.
  intros Hk. unfold counter_get. by rewrite (not_elem_of_dom_1 _ _ Hk).
Qed.

(** ** The order of strings *)

Lemma str_le_alt a b : str_le a b ↔ String.compare a b ≠ Gt.
Proof.
  unfold str_le, String.leb. destruct (String.compare a b); split; congruence.
Qed.

#[global] Instance str_le_total : Total str_le.
Proof. intros a b. apply String.leb_total. Qed.

#[global] Instance str_le_antisymm : AntiSymm (=) str_le.
Proof. intros a b. apply String.leb_antisym. Qed.

#[global] Instance str_le_refl : Reflexive str_le.
Proof. intros a. destruct (total str_le a a); done. Qed.

Lemma str_le_lt_eq a b : str_le a b ↔ String_as_OT.lt a b ∨ a = b.
Proof.
  rewrite str_le_alt. rewrite <- String_as_OT.cmp_lt.
  unfold String_as_OT.cmp.
  destruct (String.compare a b) eqn:Hc.
  - apply String.compare_eq_iff in Hc. naive_solver.
  - naive_solver.
  - split; [done|]. intros [?| ->]; [done|].
    pose proof (String.compare_antisym b b) as Hb. rewrite Hc in Hb. done.
Qed.

#[global] Instance str_le_trans : Transitive str_le.
Proof.
  intros a b c. rewrite !str_le_lt_eq.
  intros [Hab| ->] [Hbc| ->]; eauto using String_as_OT.lt_trans.
Qed.

Lemma sorted_sorted l : StronglySorted str_le (sorted l).
Proof. apply StronglySorted_merge_sort; apply _. Qed.

Lemma sorted_perm l : sorted l ≡ₚ l.
Proof. apply merge_sort_Permutation. Qed.

(** ** The aggregators *)

Lemma count_types_tally records :
  Simple.count_types records = tally (type_key "Unknown / No Type") ∅ records.
Proof. done. Qed.

Lemma count_by_type_region_from (mapping : gmap Z string)
    (units : list LocalUnit) (counter : gmap (string * string) nat)
    (unresolved : gset (option Z)) :
  foldl (Treemap.count_unit mapping) (counter, unresolved) units
  = (tally (type_region_key mapping) counter units,
     list_to_set
       (filter (λ c, Treemap.region_of mapping c = None) (lu_country <$> units))
     ∪ unresolved).
Proof.
  revert counter unresolved.
  induction units as [|u units IH]; intros counter unresolved; simpl.
  - f_equal. by rewrite (left_id_L ∅ (∪)).
  - unfold Treemap.count_unit at 2. unfold type_region_key at 2, region_key.
    rewrite filter_cons.
    destruct (Treemap.region_of mapping (lu_country u)) as [rg|] eqn:Hrg; simpl.
    + by rewrite IH.
    + rewrite IH. f_equal.
      apply set_eq. intros c. rewrite !elem_of_union. tauto.
Qed.

Lemma count_by_type_region_counter mapping units :
  (Treemap.count_by_type_region mapping units).1
  = tally (type_region_key mapping) ∅ units.
Proof.
  unfold Treemap.count_by_type_region.
  by rewrite count_by_type_region_from.
Qed.

Lemma count_by_type_region_unresolved mapping units c :
  c ∈ (Treemap.count_by_type_region mapping units).2
  ↔ ∃ u, u ∈ units ∧ lu_country u = c ∧ Treemap.region_of mapping c = None.
Proof.
  unfold Treemap.count_by_type_region.
  rewrite count_by_type_region_from. simpl.
  rewrite (right_id_L ∅ (∪)), elem_of_list_to_set, list_elem_of_filter, list_elem_of_fmap.
  split.
  - intros (Hnone & u & -> & Hu). eauto.
  - intros (u & Hu & <- & Hnone). eauto.
Qed.

Lemma build_country_to_region_from (countries : list Country)
    (mapping : gmap Z string) (i : Z) :
  foldl (λ mapping c,
           match c_id c, c_region c with
           | Some country_id, Some region_id =>
               <[country_id := Treemap.region_name_of region_id]> mapping
           | _, _ => mapping
           end) mapping countries !! i
  = match last_region countries i with
    | Some region_id => Some (Treemap.region_name_of region_id)
    | None => mapping !! i
    end.
Proof.
  revert mapping. unfold last_region.
  induction countries as [|c countries IH]; intros mapping; simpl; [done|].
  rewrite IH. destruct (c_id c) as [j|], (c_region c) as [rg|]; try done.
  destruct (decide (j = i)) as [->|Hji].
  - rewrite last_cons. destruct (last _); [done|]. by rewrite lookup_insert_eq.
  - destruct (last _); [done|]. by rewrite lookup_insert_ne.
Qed.

Lemma build_country_to_region_lookup countries i :
  Treemap.build_country_to_region countries !! i
  = Treemap.region_name_of <$> last_region countries i.
Proof.
  unfold Treemap.build_country_to_region.
  rewrite build_country_to_region_from. by destruct (last_region _ _).
Qed.

Lemma region_name_of_unknown (region_id : Z) :
  (region_id < 0 ∨ 4 < region_id)%Z →
  Treemap.region_name_of region_id = "Unknown (" +:+ pretty region_id +:+ ")".
Proof.
  intros Hout. unfold Treemap.region_name_of, Treemap.REGION_MAP.
  rewrite (not_elem_of_list_to_map_1 _ region_id); [done|].
  simpl. rewrite !not_elem_of_cons. split_and!; try lia. apply not_elem_of_nil.
Qed.

(** C1.  Whatever the records fetched for an environment, the counts of the
    tally add up to the number of records: every record is counted once,
    under one key, in the type tally of the simple report and in the
    (type, region) tally of the treemap report. *)
Theorem tally_counts_every_record_once (records : list LocalUnit)
    (country_to_region : gmap Z string) :
  counter_total (Simple.count_types records) = length records
  ∧ counter_total
      (Treemap.count_by_type_region country_to_region records).1
    = length records.
Proof.
  rewrite count_types_tally, count_by_type_region_counter, !tally_total.
  unfold counter_total. by rewrite !map_fold_empty.
Qed.

Lemma type_key_named sentinel record name :
  names_type record name → type_key sentinel record = name.
Proof.
  intros (type_details & Hd & Hn & Hne). unfold type_key, truthy.
  rewrite Hd, Hn. destruct (String.eqb_spec name ""); done.
Qed.

Lemma type_key_unnamed sentinel record :
  (∀ name, ¬ names_type record name) → type_key sentinel record = sentinel.
Proof.
  intros Hnone. unfold type_key, truthy.
  destruct (lu_type_details record) as [type_details|] eqn:Hd; [|done].
  destruct (td_name type_details) as [name|] eqn:Hn; [|done].
  destruct (String.eqb_spec name ""); [done|].
  destruct (Hnone name). by exists type_details.
Qed.

(** C4.  The category key of a record is its nested type name, verbatim,
    when [type_details] is present and its name is a non-empty string, and
    the sentinel otherwise; the simple aggregator counts every record under
    that key with the sentinel "Unknown / No Type", the treemap aggregator
    with the sentinel "Unknown Type"; a record whose [type_details] is null,
    or whose name is the empty string, is counted under the sentinel. *)
Theorem records_are_counted_under_their_type (records : list LocalUnit)
    (country_to_region : gmap Z string) :
  (∀ sentinel record name,
      names_type record name → type_key sentinel record = name)
  ∧ (∀ sentinel record,
      (∀ name, ¬ names_type record name) → type_key sentinel record = sentinel)
  ∧ (∀ key,
      counter_get (Simple.count_types records) key
      = length (filter (λ r, type_key "Unknown / No Type" r = key) records))
  ∧ (∀ key,
      counter_get (Treemap.count_by_type_region country_to_region records).1 key
      = length (filter (λ r, (type_key "Unknown Type" r,
                              region_key country_to_region r) = key) records))
  ∧ (∀ sentinel country_id,
      type_key sentinel
        {| lu_type_details := None; lu_country := country_id |} = sentinel
      ∧ type_key sentinel
          {| lu_type_details := Some {| td_name := Some "" |};
             lu_country := country_id |} = sentinel).
Proof.
  split_and!.
  - intros sentinel record name. apply type_key_named.
  - intros sentinel record. apply type_key_unnamed.
  - intros key. by rewrite count_types_tally, tally_get.
  - intros key. by rewrite count_by_type_region_counter, tally_get.
  - done.
Qed.

(** C5.  The region resolver maps every country id of the list to the
    region name of its region code (of the last country with that id, when
    the id is repeated): the name that the 5-entry table gives, where
    code 2 is "Asia Pacific", and the label "Unknown (<code>)" for a code
    outside the table.  A local unit whose country id is not in the mapping
    is counted under the region "Unknown Region", and its id is in the set
    of unresolved ids, which holds nothing else. *)
Theorem regions_are_resolved (countries : list Country)
    (local_units : list LocalUnit) :
  let country_to_region := Treemap.build_country_to_region countries in
  let counted := Treemap.count_by_type_region country_to_region local_units in
  (∀ i, country_to_region !! i
        = Treemap.region_name_of <$> last_region countries i)
  ∧ (size Treemap.REGION_MAP = 5
     ∧ Treemap.region_name_of 0 = "Africa"
     ∧ Treemap.region_name_of 1 = "Americas"
     ∧ Treemap.region_name_of 2 = "Asia Pacific"
     ∧ Treemap.region_name_of 3 = "Europe"
     ∧ Treemap.region_name_of 4 = "MENA")
  ∧ (∀ region_id, (region_id < 0 ∨ 4 < region_id)%Z →
        Treemap.region_name_of region_id
        = "Unknown (" +:+ pretty region_id +:+ ")")
  ∧ (∀ key, counter_get counted.1 key
            = length (filter (λ u, (type_key "Unknown Type" u,
                                    region_key country_to_region u) = key)
                             local_units))
  ∧ (∀ u, u ∈ local_units →
        Treemap.region_of country_to_region (lu_country u) = None →
        region_key country_to_region u = "Unknown Region"
        ∧ lu_country u ∈ counted.2)
  ∧ (∀ country_id, country_id ∈ counted.2 →
        ∃ u, u ∈ local_units ∧ lu_country u = country_id
             ∧ Treemap.region_of country_to_region country_id = None).
Proof.
  intros country_to_region counted.
  split; [apply build_country_to_region_lookup|].
  split; [by vm_compute|].
  split; [apply region_name_of_unknown|].
  split; [|split].
  - intros key. unfold counted.
    by rewrite count_by_type_region_counter, tally_get.
  - intros u Hu Hnone. split.
    + unfold region_key. by rewrite Hnone.
    + apply count_by_type_region_unresolved. eauto.
  - intros country_id. apply count_by_type_region_unresolved.
Qed.

Lemma three_records_are_counted_under_their_type :
  let records :=
    [unit_of_type "Branch";
     {| lu_type_details := None; lu_country := Some 7%Z |};
     unit_of_type ""] in
  names_type (unit_of_type "Branch") "Branch"
  ∧ type_key "Unknown Type" (unit_of_type "Branch") = "Branch"
  ∧ counter_get (Simple.count_types records) "Branch" = 1
  ∧ counter_get (Simple.count_types records) "Unknown / No Type" = 2
  ∧ counter_get (Treemap.count_by_type_region ∅ records).1
      ("Unknown Type", "Unknown Region") = 2.
Proof.
  intros records.
  destruct (records_are_counted_under_their_type records ∅)
    as (Hnamed & _ & Hsimple & Htreemap & _).
  assert (names_type (unit_of_type "Branch") "Branch") as Hname
    by (by eexists).
  split; [exact Hname|]. split; [by apply Hnamed|].
  rewrite !Hsimple, Htreemap. by vm_compute.
Defined.

Lemma three_countries_are_resolved :
  let countries :=
    [{| c_id := Some 1%Z; c_region := Some 2%Z |};
     {| c_id := Some 2%Z; c_region := Some 9%Z |};
     {| c_id := Some 1%Z; c_region := Some 4%Z |}] in
  let local_units :=
    [{| lu_type_details := None; lu_country := Some 2%Z |};
     {| lu_type_details := None; lu_country := Some 3%Z |};
     {| lu_type_details := None; lu_country := None |}] in
  let country_to_region := Treemap.build_country_to_region countries in
  let counted := Treemap.count_by_type_region country_to_region local_units in
  country_to_region !! 1%Z = Some "MENA"
  ∧ country_to_region !! 2%Z = Some "Unknown (9)"
  ∧ country_to_region !! 3%Z = None
  ∧ counter_get counted.1 ("Unknown Type", "Unknown Region") = 2
  ∧ Some 3%Z ∈ counted.2 ∧ None ∈ counted.2.
Proof.
  intros countries local_units country_to_region counted.
  destruct (regions_are_resolved countries local_units)
    as (Hmap & _ & _ & Hcount & Hin & _).
  fold country_to_region counted in Hmap, Hcount, Hin.
  rewrite !Hmap, Hcount.
  split; [by vm_compute|]. split; [by vm_compute|]. split; [by vm_compute|].
  split; [by vm_compute|]. split.
  - apply (Hin {| lu_type_details := None; lu_country := Some 3%Z |}).
    + right. left.
    + unfold Treemap.region_of. simpl. rewrite Hmap. by vm_compute.
  - apply (Hin {| lu_type_details := None; lu_country := None |}).
    + right. right. left.
    + done.
Defined.

(** ** Tables *)

Section Assoc.
Context {V : Type}.
Implicit Types (l : list (string * V)) (k : string).

Lemma assoc_None l k : k ∉ l.*1 → assoc k l = None.
Proof.
  induction l as [|[k' v] l IH]; simpl; [done|].
  rewrite not_elem_of_cons. intros [Hk Hl].
  rewrite decide_False by done. by apply IH.
Qed.

Lemma assoc_app l1 l2 k :
  assoc k (l1 ++ l2)
  = match assoc k l1 with Some v => Some v | None => assoc k l2 end.
Proof.
  induction l1 as [|[k' v] l1 IH]; simpl; [done|].
  by destruct (decide (k' = k)).
Qed.

Lemma assoc_elem_of l k v : NoDup l.*1 → (k, v) ∈ l → assoc k l = Some v.
Proof.
  induction l as [|[k' v'] l IH]; simpl.
  - intros _ Hin. by apply elem_of_nil in Hin.
  - rewrite NoDup_cons, elem_of_cons. intros [Hk' Hnd] [Heq|Hin].
    + simplify_eq. by rewrite decide_True.
    + rewrite decide_False; [by apply IH|].
      intros ->. apply Hk'. apply list_elem_of_fmap. by exists (k, v).
Qed.

End Assoc.

Lemma set_column_fresh cols col cells :
  col ∉ cols.*1 → set_column cols col cells = cols ++ [(col, cells)].
Proof.
  induction cols as [|[c old] cols IH]; simpl; [done|].
  rewrite not_elem_of_cons. intros [Hc Hcols].
  rewrite decide_False by done. by rewrite IH.
Qed.

Lemma first_seen_seen seen l : (∀ x, x ∈ l → x ∈ seen) → first_seen seen l = [].
Proof.
  induction l as [|x l IH]; simpl; [done|]. intros Hl.
  rewrite decide_True by (apply Hl; left). apply IH. intros y Hy. apply Hl. by right.
Qed.

Lemma first_seen_fresh seen ks rest :
  NoDup ks → (∀ x, x ∈ ks → x ∉ seen) →
  first_seen seen (ks ++ rest) = ks ++ first_seen (reverse ks ++ seen) rest.
Proof.
  revert seen. induction ks as [|k ks IH]; intros seen; simpl; [done|].
  rewrite NoDup_cons. intros [Hk Hnd] Hfresh.
  rewrite decide_False by (apply Hfresh; left).
  rewrite IH; [|done|].
  - by rewrite reverse_cons, <- (assoc_L (++)).
  - intros x Hx. rewrite not_elem_of_cons. split; [by intros ->|].
    apply Hfresh. by right.
Qed.

Lemma first_seen_uniform ks n :
  NoDup ks → first_seen [] (concat (replicate (S n) ks)) = ks.
Proof.
  intros Hnd. simpl. rewrite first_seen_fresh; [|done|].
  - rewrite first_seen_seen; [by rewrite app_nil_r|].
    intros x Hx. rewrite app_nil_r, elem_of_reverse.
    apply list_elem_of_In, in_concat in Hx as (l & Hl & Hx).
    apply list_elem_of_In, elem_of_replicate in Hl as [-> _].
    by apply list_elem_of_In.
  - intros x _. apply not_elem_of_nil.
Qed.

Lemma ints_Int l : ints (Int <$> l) = Ok l.
Proof.
  unfold ints. induction l as [|n l IH]; [done|].
  rewrite fmap_cons. cbn. cbn in IH. by rewrite IH.
Qed.

Lemma strs_Str l : strs (Str <$> l) = Ok l.
Proof.
  unfold strs. induction l as [|s l IH]; [done|].
  rewrite fmap_cons. cbn. cbn in IH. by rewrite IH.
Qed.

(** ** The table of the simple report *)

Section SimpleReport.
Variables (w : Simple.World) (fuel : nat).
Implicit Types (envs : list (string * string))
  (env_counts : list (string * gmap string nat)) (types : list string).

Lemma tallies_cons env envs :
  tallies w fuel (env :: envs)
  = match tally_of w fuel env.2 with
    | Some counts => (env.1, counts) :: tallies w fuel envs
    | None => tallies w fuel envs
    end.
Proof. unfold tallies. simpl. by destruct (tally_of w fuel env.2). Qed.

Lemma tallies_none envs :
  (∀ env, env ∈ envs → tally_of w fuel env.2 = None) → tallies w fuel envs = [].
Proof.
  induction envs as [|env envs IH]; intros Hall; [done|].
  rewrite tallies_cons, (Hall env) by left. apply IH.
  intros env' Hin. apply Hall. by right.
Qed.

Lemma elem_of_tallies envs p :
  p ∈ tallies w fuel envs
  ↔ ∃ env records,
      env ∈ envs
      ∧ Simple.fetch_all_local_units w fuel env.2 = Some (Ok records)
      ∧ p = (env.1, Simple.count_types records).
Proof.
  unfold tallies. rewrite list_elem_of_omap. unfold tally_of. split.
  - intros (env & Hin & Hp).
    destruct (Simple.fetch_all_local_units w fuel env.2)
      as [[records|e]|] eqn:Hf; [|done..].
    exists env, records. by simplify_eq/=.
  - intros (env & records & Hin & Hf & ->). exists env. by rewrite Hf.
Qed.

Lemma tallies_keys envs e : e ∈ (tallies w fuel envs).*1 → e ∈ envs.*1.
Proof.
  induction envs as [|env envs IH]; [done|].
  rewrite tallies_cons, fmap_cons, elem_of_cons.
  destruct (tally_of w fuel env.2); [|by auto].
  rewrite fmap_cons, elem_of_cons. intros [->|?]; auto.
Qed.

Lemma tallies_NoDup envs : NoDup envs.*1 → NoDup (tallies w fuel envs).*1.
Proof.
  induction envs as [|env envs IH]; [done|].
  rewrite tallies_cons, fmap_cons, NoDup_cons. intros [Hfresh Hnd].
  destruct (tally_of w fuel env.2); [|by auto].
  rewrite fmap_cons, NoDup_cons. split; [|by auto].
  intros Hin. by apply Hfresh, tallies_keys.
Qed.

Lemma assoc_tallies envs env :
  NoDup envs.*1 → env ∈ envs →
  assoc env.1 (tallies w fuel envs) = tally_of w fuel env.2.
Proof.
  induction envs as [|env' envs IH]; intros Hnd Hin.
  - by apply elem_of_nil in Hin.
  - rewrite fmap_cons, NoDup_cons in Hnd. destruct Hnd as [Hfresh Hnd].
    rewrite tallies_cons. apply elem_of_cons in Hin as [->|Hin].
    + destruct (tally_of w fuel env'.2); simpl.
      * by rewrite decide_True.
      * apply assoc_None. intros Hk. by apply Hfresh, tallies_keys.
    + assert (env'.1 ≠ env.1) as Hne.
      { intros Heq. apply Hfresh. rewrite Heq.
        apply list_elem_of_fmap. by exists env. }
      destruct (tally_of w fuel env'.2); simpl.
      * rewrite decide_False by done. by apply IH.
      * by apply IH.
Qed.

(** A row holds a count for exactly the environments fetched. *)
Lemma row_tallies envs type_name :
  NoDup envs.*1 →
  Simple.row envs (tallies w fuel envs) type_name
  = ("categories", Str type_name)
    :: ((λ p, ("count_" +:+ p.1,
               Int (Z.of_nat (counter_get p.2 type_name))))
        <$> tallies w fuel envs).
Proof.
  intros Hnd. unfold Simple.row. f_equal.
  assert (∀ l, (∀ env, env ∈ l → env ∈ envs) →
    omap (λ env, match assoc env.1 (tallies w fuel envs) with
                 | Some counts =>
                     Some ("count_" +:+ env.1,
                           Int (Z.of_nat (counter_get counts type_name)))
                 | None => None
                 end) l
    = (λ p, ("count_" +:+ p.1, Int (Z.of_nat (counter_get p.2 type_name))))
      <$> tallies w fuel l) as Hl.
  { induction l as [|env l IH]; intros Hsub; [done|].
    rewrite tallies_cons.
    specialize (IH ltac:(intros; apply Hsub; by right)).
    cbn. cbn in IH. rewrite IH.
    rewrite assoc_tallies by (done || apply Hsub; left).
    by destruct (tally_of w fuel env.2). }
  by apply Hl.
Qed.

End SimpleReport.

Lemma count_names_NoDup env_counts :
  NoDup env_counts.*1 →
  NoDup ("categories"
         :: ((λ p : string * gmap string nat, "count_" +:+ p.1) <$> env_counts)).
Proof.
  intros Hnd. apply NoDup_cons. split.
  - intros Hin. apply list_elem_of_fmap in Hin as (p & Hp & _). done.
  - induction env_counts as [|p env_counts IH]; [constructor|].
    rewrite fmap_cons, NoDup_cons in Hnd. destruct Hnd as [Hfresh Hnd].
    rewrite fmap_cons. apply NoDup_cons. split; [|by apply IH].
    intros Hin. apply list_elem_of_fmap in Hin as (q & Hq & Hin).
    apply Hfresh. apply list_elem_of_fmap. exists q. split; [|done].
    by simplify_eq/=.
Qed.

(** The table built from the rows, before the derived columns. *)
Lemma DataFrame_of_rows_counts types env_counts :
  types ≠ [] → NoDup env_counts.*1 →
  DataFrame_of_rows
    ((λ type_name,
        ("categories", Str type_name)
        :: ((λ p, ("count_" +:+ p.1,
                   Int (Z.of_nat (counter_get p.2 type_name))))
            <$> env_counts)) <$> types)
  = {| df_len := length types;
       df_columns :=
         ("categories", Str <$> types) :: (count_column types <$> env_counts) |}.
Proof.
  intros Hne Hnd. unfold DataFrame_of_rows. rewrite length_fmap. f_equal.
  set (ks := "categories"
        :: ((λ p : string * gmap string nat, "count_" +:+ p.1) <$> env_counts)).
  assert (concat (map (map fst)
            ((λ type_name,
                ("categories", Str type_name)
                :: ((λ p, ("count_" +:+ p.1,
                           Int (Z.of_nat (counter_get p.2 type_name))))
                    <$> env_counts)) <$> types))
          = concat (replicate (length types) ks)) as ->.
  { f_equal. clear Hne. induction types as [|t types IH]; [done|].
    simpl. f_equal; [|apply IH]. unfold ks. f_equal.
    rewrite <- list_fmap_compose. by apply list_fmap_ext. }
  destruct types as [|t0 types0] eqn:Htypes; [done|]. rewrite <- Htypes.
  replace (length types) with (S (length types0)) by (by rewrite Htypes).
  rewrite first_seen_uniform by (by apply count_names_NoDup).
  unfold ks. simpl. f_equal.
  - f_equal. rewrite <- list_fmap_compose. apply list_fmap_ext.
    intros i t _. done.
  - rewrite <- !list_fmap_compose. apply list_fmap_ext.
    intros i p Hp. simpl. unfold count_column. f_equal.
    unfold count_cells. rewrite <- !list_fmap_compose. apply list_fmap_ext.
    intros j t _. simpl.
    rewrite (assoc_elem_of _ _ (Int (Z.of_nat (counter_get p.2 t)))); [done|..].
    + rewrite <- list_fmap_compose.
      apply count_names_NoDup, NoDup_cons in Hnd as [_ Hnd]. done.
    + apply list_elem_of_fmap. exists p. split; [done|].
      by eapply list_elem_of_lookup_2.
Qed.

Lemma share_names types env_counts c :
  c ∈ (concat (share_columns types <$> env_counts)).*1 →
  ∃ q, q ∈ env_counts ∧ (c = "pct_" +:+ q.1 ∨ c = "waffle_cells_" +:+ q.1).
Proof.
  induction env_counts as [|q env_counts IH]; simpl.
  - intros Hin. by apply elem_of_nil in Hin.
  - rewrite !elem_of_cons. intros [->|[->|Hin]].
    + exists q. split; [by left|by left].
    + exists q. split; [by left|by right].
    + destruct (IH Hin) as (q' & Hq' & Hc). exists q'. split; [by right|done].
Qed.

Lemma fmap_replicate_const {A B : Type} (b : B) (l : list A) :
  (λ _, b) <$> l = replicate (length l) b.
Proof. induction l as [|a l IH]; [done|]. rewrite fmap_cons, IH. done. Qed.

Section Shares.
Variables (types : list string) (env_counts : list (string * gmap string nat)).
Hypothesis Hnd : NoDup env_counts.*1.

Lemma count_column_lookup (p : string * gmap string nat) cols :
  p ∈ env_counts →
  assoc ("count_" +:+ p.1)
    ((("categories", Str <$> types) :: (count_column types <$> env_counts))
     ++ cols)
  = Some (Int <$> count_cells types p.2).
Proof.
  intros Hp. rewrite assoc_app. simpl.
  rewrite (assoc_elem_of _ _ (Int <$> count_cells types p.2)); [done|..].
  - rewrite <- list_fmap_compose.
    apply count_names_NoDup, NoDup_cons in Hnd as [_ Hnd']. done.
  - apply list_elem_of_fmap. by exists p.
Qed.

Lemma df_get_count (p : string * gmap string nat)
    (done_ : list (string * gmap string nat)) :
  p ∈ env_counts →
  df_get (shared_table types env_counts done_) ("count_" +:+ p.1)
  = Ok (Int <$> count_cells types p.2).
Proof.
  intros Hp. unfold df_get, shared_table. cbn [df_columns].
  by rewrite count_column_lookup.
Qed.

Lemma share_name_fresh (p : string * gmap string nat)
    (done_ : list (string * gmap string nat)) c :
  p.1 ∉ done_.*1 →
  c = "pct_" +:+ p.1 ∨ c = "waffle_cells_" +:+ p.1 →
  c ∉ ((("categories", Str <$> types) :: (count_column types <$> env_counts))
       ++ concat (share_columns types <$> done_)).*1.
Proof.
  intros Hfresh Hc. rewrite fmap_app, fmap_cons, elem_of_app, elem_of_cons.
  intros [[Hcat|Hcount]|Hshare].
  - by destruct Hc as [-> | ->].
  - apply list_elem_of_fmap in Hcount as ([c' cells] & -> & Hin).
    apply list_elem_of_fmap in Hin as (q & Hq & _).
    unfold count_column in Hq. simplify_eq/=. by destruct Hc.
  - apply share_names in Hshare as (q & Hq & Hcq).
    apply Hfresh. apply list_elem_of_fmap. exists q. split; [|done].
    destruct Hc as [-> | ->], Hcq as [Hcq|Hcq]; by simplify_eq/=.
Qed.

Lemma add_shares_step (p : string * gmap string nat)
    (done_ : list (string * gmap string nat)) :
  p ∈ env_counts → p.1 ∉ done_.*1 →
  Simple.add_shares (shared_table types env_counts done_) p.1 = Ok (shared_table types env_counts (done_ ++ [p])).
Proof.
  intros Hp Hfresh. unfold Simple.add_shares.
  rewrite df_get_count by done. cbn [mbind result_bind].
  rewrite ints_Int. cbn [mbind result_bind]. f_equal.
  set (counts := count_cells types p.2).
  set (total := foldr Z.add 0%Z counts).
  assert (length counts = length types) as Hlen
    by (unfold counts, count_cells; by rewrite length_fmap).
  assert ((if bool_decide (total ≠ 0%Z)
           then df_set (shared_table types env_counts done_) ("pct_" +:+ p.1)
                  (map (λ n, Float (round2 (share n total))) counts)
           else df_set_scalar (shared_table types env_counts done_) ("pct_" +:+ p.1) (Int 0))
          = df_set (shared_table types env_counts done_) ("pct_" +:+ p.1)
              (pct_cell total <$> counts)) as ->.
  { unfold pct_cell, df_set_scalar. case_bool_decide; [done|].
    f_equal. rewrite fmap_replicate_const. cbn. by rewrite Hlen. }
  set (df1 := df_set (shared_table types env_counts done_) ("pct_" +:+ p.1)
                (pct_cell total <$> counts)).
  assert ((if bool_decide (total ≠ 0%Z)
           then df_set df1 ("waffle_cells_" +:+ p.1)
                  (map (λ n, Int (astype_int (rint (share n total)))) counts)
           else df_set_scalar df1 ("waffle_cells_" +:+ p.1) (Int 0))
          = df_set df1 ("waffle_cells_" +:+ p.1)
              (waffle_cell total <$> counts)) as ->.
  { unfold waffle_cell, df_set_scalar. case_bool_decide; [done|].
    f_equal. rewrite fmap_replicate_const. cbn. by rewrite Hlen. }
  unfold df1, df_set, shared_table. cbn [df_len df_columns]. f_equal.
  rewrite (set_column_fresh _ ("pct_" +:+ p.1))
    by (apply (share_name_fresh p); auto).
  rewrite set_column_fresh.
  - rewrite fmap_app, concat_app. simpl.
    by rewrite <- !(assoc_L (++)).
  - rewrite fmap_app, elem_of_app. intros [Hin|Hin].
    + revert Hin. apply (share_name_fresh p); auto.
    + simpl in Hin. apply list_elem_of_singleton in Hin. done.
Qed.

Lemma add_shares_fold (todo done_ : list (string * gmap string nat)) :
  (∀ p, p ∈ todo → p ∈ env_counts) → NoDup (done_ ++ todo).*1 →
  foldl (λ df env, df ← df; Simple.add_shares df env.1)
        (Ok (shared_table types env_counts done_)) todo
  = Ok (shared_table types env_counts (done_ ++ todo)).
Proof.
  revert done_. induction todo as [|p todo IH]; intros done_ Hsub Hnd'.
  - by rewrite app_nil_r.
  - cbn [foldl]. cbn [mbind result_bind].
    rewrite add_shares_step.
    + rewrite IH.
      * by rewrite <- (assoc_L (++)).
      * intros q Hq. apply Hsub. by right.
      * by rewrite <- (assoc_L (++)).
    + apply Hsub. by left.
    + rewrite fmap_app, fmap_cons in Hnd'.
      apply NoDup_app in Hnd' as (_ & Hdisj & _).
      intros Hin. apply (Hdisj _ Hin). by left.
Qed.

End Shares.

Lemma add_shares_raise e (todo : list (string * gmap string nat)) :
  foldl (λ df env, df ← df; Simple.add_shares df env.1) (Raise e) todo
  = Raise e.
Proof. induction todo as [|p todo IH]; [done|]. apply IH. Qed.

(** The total of a count column is the total of the tally. *)
Lemma column_total types (counts : gmap string nat) :
  NoDup types → (∀ k, k ∈ dom counts → k ∈ types) →
  foldr Z.add 0%Z (count_cells types counts) = Z.of_nat (counter_total counts).
Proof.
  revert counts. induction types as [|t types IH]; intros counts Hnd Hdom.
  - simpl. unfold counter_total.
    replace counts with (∅ : gmap string nat); [by rewrite map_fold_empty|].
    symmetry. apply dom_empty_iff_L, set_eq. intros k.
    split; [|intros Hk; by apply elem_of_empty in Hk].
    intros Hk. by apply Hdom, elem_of_nil in Hk.
  - apply NoDup_cons in Hnd as [Ht Hnd].
    rewrite (counter_total_delete counts t), Nat2Z.inj_add.
    rewrite <- (IH (delete t counts)); [|done|].
    + unfold count_cells. rewrite fmap_cons. cbn [foldr].
      f_equal. f_equal. apply list_fmap_ext.
      intros i k Hk. simpl. rewrite counter_get_delete_ne; [done|].
      intros ->. apply Ht. by eapply list_elem_of_lookup_2.
    + intros k. rewrite dom_delete_L, elem_of_difference, elem_of_singleton.
      intros [Hk Hne]. apply Hdom, elem_of_cons in Hk as [->|Hk]; done.
Qed.

Section AllTypes.
Implicit Types (env_counts : list (string * gmap string nat)).

Lemma elem_of_all_types env_counts k :
  k ∈ Simple.all_types env_counts ↔ ∃ p, p ∈ env_counts ∧ k ∈ dom p.2.
Proof.
  unfold Simple.all_types, sorted.
  rewrite merge_sort_Permutation, elem_of_elements, elem_of_union_list.
  split.
  - intros (X & HX & Hk). apply list_elem_of_In, in_map_iff in HX as (p & <- & Hp).
    exists p. split; [by apply list_elem_of_In|done].
  - intros (p & Hp & Hk). exists (dom p.2). split; [|done].
    apply list_elem_of_In, in_map_iff. exists p. split; [done|].
    by apply list_elem_of_In.
Qed.

Lemma all_types_NoDup env_counts : NoDup (Simple.all_types env_counts).
Proof.
  unfold Simple.all_types, sorted. rewrite merge_sort_Permutation.
  apply NoDup_elements.
Qed.

Lemma all_types_sorted env_counts :
  StronglySorted str_le (Simple.all_types env_counts).
Proof. apply sorted_sorted. Qed.

End AllTypes.

Lemma build_table_tallies (w : Simple.World) fuel envs :
  NoDup envs.*1 →
  Simple.all_types (tallies w fuel envs) ≠ [] →
  Simple.build_table envs (tallies w fuel envs)
  = Ok (report_table (Simple.all_types (tallies w fuel envs))
          (tallies w fuel envs)).
Proof.
  intros Hnd Hne. unfold Simple.build_table.
  set (env_counts := tallies w fuel envs) in *.
  set (types := Simple.all_types env_counts) in *.
  assert (map (Simple.row envs env_counts) types
          = (λ type_name,
               ("categories", Str type_name)
               :: ((λ p, ("count_" +:+ p.1,
                          Int (Z.of_nat (counter_get p.2 type_name))))
                   <$> env_counts)) <$> types) as ->.
  { apply list_fmap_ext. intros i t _. by apply row_tallies. }
  assert (NoDup env_counts.*1) as Hnd' by (by apply tallies_NoDup).
  rewrite DataFrame_of_rows_counts by done.
  pose proof (add_shares_fold types env_counts Hnd' env_counts []) as Hfold.
  unfold shared_table in Hfold. simpl in Hfold. rewrite app_nil_r in Hfold.
  rewrite Hfold; [done|done|done].
Qed.

Lemma build_table_no_type envs p env_counts :
  Simple.all_types (p :: env_counts) = [] →
  Simple.build_table envs (p :: env_counts)
  = Raise (KeyError ("count_" +:+ p.1)).
Proof.
  intros Hnone. unfold Simple.build_table. rewrite Hnone. simpl.
  apply add_shares_raise.
Qed.

(** ** Runs of the simple report *)

Section SimpleRun.
Variables (w : Simple.World) (fuel : nat).
Implicit Types (envs : list (string * string)) (st : State).

Lemma warned_nil st : warned w fuel [] st = st.
Proof. destruct st. unfold warned. simpl. by rewrite app_nil_r. Qed.

Lemma fetch_environments_settled envs acc st :
  (∀ env, env ∈ envs → settled w fuel env.2) →
  Simple.fetch_environments w fuel envs acc st
  = Some (Ok (acc ++ tallies w fuel envs), warned w fuel envs st).
Proof.
  revert acc st. induction envs as [|[env_name base_url] envs IH];
    intros acc st Hall.
  - simpl. by rewrite app_nil_r, warned_nil.
  - assert (settled w fuel base_url) as Hs
      by (apply (Hall (env_name, base_url)); left).
    specialize (λ acc st, IH acc st ltac:(intros; apply Hall; by right)).
    rewrite tallies_cons. unfold warned, warning_of, tally_of. simpl.
    unfold settled in Hs.
    destruct (Simple.fetch_all_local_units w fuel base_url)
      as [[records|e]|]; [| |done].
    + rewrite IH. by rewrite <- (assoc_L (++)).
    + destruct e; try done; rewrite IH; unfold warned, print; simpl;
        by rewrite <- (assoc_L (++)).
Qed.

Lemma fetch_environments_ok envs acc st env_counts st' :
  Simple.fetch_environments w fuel envs acc st = Some (Ok env_counts, st') →
  ∀ env, env ∈ envs → settled w fuel env.2.
Proof.
  revert acc st. induction envs as [|[env_name base_url] envs IH];
    intros acc st Hrun env Hin.
  - by apply elem_of_nil in Hin.
  - cbn [Simple.fetch_environments] in Hrun.
    destruct (Simple.fetch_all_local_units w fuel base_url)
      as [[records|e]|] eqn:Hf; [| |done].
    + apply elem_of_cons in Hin as [->|Hin]; [|by eapply IH].
      unfold settled. simpl. by rewrite Hf.
    + destruct e; try done;
        (apply elem_of_cons in Hin as [->|Hin]; [|by eapply IH]);
        unfold settled; simpl; by rewrite Hf.
Qed.

(** What [main] does once every fetch has ended in records or in an
    exception that it catches. *)
Lemma main_over_settled envs st :
  NoDup envs.*1 →
  (∀ env, env ∈ envs → settled w fuel env.2) →
  Simple.main_over envs w fuel st
  = Some
      match tallies w fuel envs with
      | [] => (Ok (), print NoEnvironment (warned w fuel envs st))
      | p :: _ =>
          match Simple.all_types (tallies w fuel envs) with
          | [] => (Raise (KeyError ("count_" +:+ p.1)), warned w fuel envs st)
          | _ :: _ =>
              (Ok (),
               print (Saved Simple.OUTPUT_FILE)
                 (write_file Simple.OUTPUT_FILE
                    [("Local Unit Types",
                      report_table (Simple.all_types (tallies w fuel envs))
                        (tallies w fuel envs))]
                    (warned w fuel envs st)))
          end
      end.
Proof.
  intros Hnd Hall. unfold Simple.main_over.
  rewrite fetch_environments_settled by done. simpl.
  destruct (tallies w fuel envs) as [|p env_counts] eqn:Ht; [done|].
  destruct (Simple.all_types (p :: env_counts)) as [|t types] eqn:Hty.
  - by rewrite build_table_no_type.
  - rewrite <- Ht, build_table_tallies; [by rewrite Ht, Hty|done|].
    by rewrite Ht, Hty.
Qed.

Lemma main_over_ok envs st st' :
  Simple.main_over envs w fuel st = Some (Ok (), st') →
  ∀ env, env ∈ envs → settled w fuel env.2.
Proof.
  unfold Simple.main_over.
  destruct (Simple.fetch_environments w fuel envs [] st)
    as [[[env_counts|e] st1]|] eqn:Hf; [|done..].
  intros _. by eapply fetch_environments_ok.
Qed.

End SimpleRun.

Lemma ENVIRONMENTS_NoDup : NoDup Simple.ENVIRONMENTS.*1.
Proof. by apply (bool_decide_unpack _). Qed.

Section ReportColumns.
Variables (types : list string) (env_counts : list (string * gmap string nat)).
Hypothesis Hnd : NoDup env_counts.*1.

Lemma report_categories :
  df_get (report_table types env_counts) "categories" = Ok (Str <$> types).
Proof. done. Qed.

Lemma report_count (p : string * gmap string nat) :
  p ∈ env_counts →
  df_get (report_table types env_counts) ("count_" +:+ p.1)
  = Ok (Int <$> count_cells types p.2).
Proof. intros Hp. by apply (df_get_count types env_counts Hnd p env_counts). Qed.

Lemma assoc_shares (p : string * gmap string nat)
    (l : list (string * gmap string nat)) :
  NoDup l.*1 → p ∈ l →
  let counts := count_cells types p.2 in
  let total := foldr Z.add 0%Z counts in
  assoc ("pct_" +:+ p.1) (concat (share_columns types <$> l))
  = Some (pct_cell total <$> counts)
  ∧ assoc ("waffle_cells_" +:+ p.1) (concat (share_columns types <$> l))
    = Some (waffle_cell total <$> counts).
Proof.
  intros Hl Hp counts total. induction l as [|q l IH].
  - by apply elem_of_nil in Hp.
  - rewrite fmap_cons, NoDup_cons in Hl. destruct Hl as [Hq Hl].
    apply elem_of_cons in Hp as [->|Hp].
    + simpl. rewrite decide_True by done. rewrite decide_True by done. done.
    + assert (q.1 ≠ p.1) as Hne.
      { intros Heq. apply Hq. rewrite Heq. apply list_elem_of_fmap. by exists p. }
      simpl. rewrite !decide_False by (intros ?; by simplify_eq/=).
      by apply IH.
Qed.

Lemma report_shares (p : string * gmap string nat) :
  p ∈ env_counts →
  let counts := count_cells types p.2 in
  let total := foldr Z.add 0%Z counts in
  df_get (report_table types env_counts) ("pct_" +:+ p.1)
  = Ok (pct_cell total <$> counts)
  ∧ df_get (report_table types env_counts) ("waffle_cells_" +:+ p.1)
    = Ok (waffle_cell total <$> counts).
Proof.
  intros Hp counts total.
  destruct (assoc_shares p env_counts Hnd Hp) as [Hpct Hwaffle].
  unfold df_get, report_table. cbn [df_columns assoc].
  rewrite !decide_False by done. rewrite !assoc_app.
  rewrite !(assoc_None (count_column types <$> env_counts)).
  - fold counts total in Hpct, Hwaffle. by rewrite Hpct, Hwaffle.
  - intros Hin. apply list_elem_of_fmap in Hin as ([c cells] & Hc & Hin).
    apply list_elem_of_fmap in Hin as (q & Hq & _).
    unfold count_column in Hq. by simplify_eq/=.
  - intros Hin. apply list_elem_of_fmap in Hin as ([c cells] & Hc & Hin).
    apply list_elem_of_fmap in Hin as (q & Hq & _).
    unfold count_column in Hq. by simplify_eq/=.
Qed.

(** The columns of the report: the categories, then a count column per
    environment fetched, then its percentage and waffle-cell columns. *)
Lemma report_names :
  (df_columns (report_table types env_counts)).*1
  = "categories"
    :: ((λ env_name, "count_" +:+ env_name) <$> env_counts.*1)
    ++ concat ((λ env_name, ["pct_" +:+ env_name;
                             "waffle_cells_" +:+ env_name])
               <$> env_counts.*1).
Proof.
  unfold report_table. cbn [df_columns]. rewrite fmap_cons, fmap_app.
  f_equal. f_equal.
  - rewrite <- !list_fmap_compose. by apply list_fmap_ext.
  - clear Hnd. induction env_counts as [|q l IH]; [done|].
    rewrite !fmap_cons. cbn [concat]. rewrite fmap_app, IH. done.
Qed.

End ReportColumns.

(** A run of [main] that ends without exception, with some environment
    fetched, has written the report. *)
Lemma main_saves (w : Simple.World) fuel st st' :
  Simple.main w fuel st = Some (Ok (), st') →
  tallies w fuel Simple.ENVIRONMENTS ≠ [] →
  Simple.all_types (tallies w fuel Simple.ENVIRONMENTS) ≠ []
  ∧ files st' !! Simple.OUTPUT_FILE
    = Some [("Local Unit Types",
             report_table (Simple.all_types (tallies w fuel Simple.ENVIRONMENTS))
               (tallies w fuel Simple.ENVIRONMENTS))].
Proof.
  intros Hrun Hsome. unfold Simple.main in Hrun.
  pose proof (main_over_ok _ _ _ _ _ Hrun) as Hall.
  rewrite (main_over_settled _ _ _ _ ENVIRONMENTS_NoDup Hall) in Hrun.
  destruct (tallies w fuel Simple.ENVIRONMENTS) as [|p env_counts]; [done|].
  destruct (Simple.all_types (p :: env_counts)) as [|t types]; [done|].
  split; [done|]. simplify_eq. simpl. by rewrite lookup_insert_eq.
Qed.

(** ** The simple report: what the table holds *)

(** C9.  In the simple report the row index, the column of categories, is
    the union of the category keys of the tallies of all environments
    fetched successfully (the keys of all the records fetched), sorted
    lexicographically, each key in one row. *)
Theorem rows_are_the_sorted_union_of_keys (w : Simple.World) (fuel : nat)
    (st st' : State) :
  Simple.main w fuel st = Some (Ok (), st') →
  tallies w fuel Simple.ENVIRONMENTS ≠ [] →
  ∃ df types,
    files st' !! Simple.OUTPUT_FILE = Some [("Local Unit Types", df)]
    ∧ df_get df "categories" = Ok (Str <$> types)
    ∧ df_len df = length types
    ∧ StronglySorted str_le types
    ∧ NoDup types
    ∧ (∀ key, key ∈ types
              ↔ ∃ p, p ∈ tallies w fuel Simple.ENVIRONMENTS ∧ key ∈ dom p.2)
    ∧ (∀ key, key ∈ types
              ↔ ∃ env records record,
                  env ∈ Simple.ENVIRONMENTS
                  ∧ Simple.fetch_all_local_units w fuel env.2
                    = Some (Ok records)
                  ∧ record ∈ records
                  ∧ type_key "Unknown / No Type" record = key).
Proof.
  intros Hrun Hsome. destruct (main_saves w fuel st st' Hrun Hsome) as [_ Hfile].
  eexists _, _. split; [exact Hfile|]. split; [apply report_categories|].
  split; [done|]. split; [apply all_types_sorted|].
  split; [apply all_types_NoDup|]. split; [apply elem_of_all_types|].
  intros key. rewrite elem_of_all_types. split.
  - intros (p & Hp & Hkey).
    apply elem_of_tallies in Hp as (env & records & Hin & Hf & ->).
    cbn [snd] in Hkey. rewrite count_types_tally in Hkey.
    apply tally_dom in Hkey as [Hkey|(record & Hrec & Hk)].
    + rewrite dom_empty_L in Hkey. by apply elem_of_empty in Hkey.
    + by exists env, records, record.
  - intros (env & records & record & Hin & Hf & Hrec & Hk).
    exists (env.1, Simple.count_types records). split.
    + apply elem_of_tallies. by exists env, records.
    + cbn [snd]. rewrite count_types_tally. apply tally_dom. right.
      by exists record.
Qed.

Lemma rows_of_three_A_one_B :
  ∃ df types,
    files (state_after (Simple.main (staging_only three_A_one_B) 1 fresh))
      !! Simple.OUTPUT_FILE = Some [("Local Unit Types", df)]
    ∧ df_get df "categories" = Ok (Str <$> types)
    ∧ df_len df = length types
    ∧ StronglySorted str_le types
    ∧ NoDup types
    ∧ (∀ key, key ∈ types
              ↔ ∃ p, p ∈ tallies (staging_only three_A_one_B) 1
                           Simple.ENVIRONMENTS
                     ∧ key ∈ dom p.2)
    ∧ (∀ key, key ∈ types
              ↔ ∃ env records record,
                  env ∈ Simple.ENVIRONMENTS
                  ∧ Simple.fetch_all_local_units
                      (staging_only three_A_one_B) 1 env.2
                    = Some (Ok records)
                  ∧ record ∈ records
                  ∧ type_key "Unknown / No Type" record = key).
Proof.
  apply (rows_are_the_sorted_union_of_keys (staging_only three_A_one_B) 1 fresh).
  - by vm_compute.
  - by vm_compute.
Defined.

(** C10.  In the simple report, the count column of every environment
    fetched holds, in the row of every category key of the row index, the
    count of that key in the tally of the environment, and 0 when the
    tally does not have the key. *)
Theorem counts_are_zero_filled (w : Simple.World) (fuel : nat)
    (st st' : State) :
  Simple.main w fuel st = Some (Ok (), st') →
  tallies w fuel Simple.ENVIRONMENTS ≠ [] →
  ∃ df types,
    files st' !! Simple.OUTPUT_FILE = Some [("Local Unit Types", df)]
    ∧ types = Simple.all_types (tallies w fuel Simple.ENVIRONMENTS)
    ∧ df_get df "categories" = Ok (Str <$> types)
    ∧ ∀ env_name counts,
        (env_name, counts) ∈ tallies w fuel Simple.ENVIRONMENTS →
        df_get df ("count_" +:+ env_name)
        = Ok ((λ key, Int (Z.of_nat match counts !! key with
                                    | Some n => n
                                    | None => 0
                                    end)) <$> types).
Proof.
  intros Hrun Hsome. destruct (main_saves w fuel st st' Hrun Hsome) as [_ Hfile].
  eexists _, _. split; [exact Hfile|]. split; [done|].
  split; [apply report_categories|].
  intros env_name counts Hin.
  rewrite (report_count _ _ (tallies_NoDup _ _ _ ENVIRONMENTS_NoDup)
             (env_name, counts) Hin).
  unfold count_cells. by rewrite <- list_fmap_compose.
Qed.

Lemma counts_of_three_A_one_B :
  ∃ df types,
    files (state_after (Simple.main (staging_only three_A_one_B) 1 fresh))
      !! Simple.OUTPUT_FILE = Some [("Local Unit Types", df)]
    ∧ types = Simple.all_types
                (tallies (staging_only three_A_one_B) 1 Simple.ENVIRONMENTS)
    ∧ df_get df "categories" = Ok (Str <$> types)
    ∧ ∀ env_name counts,
        (env_name, counts)
          ∈ tallies (staging_only three_A_one_B) 1 Simple.ENVIRONMENTS →
        df_get df ("count_" +:+ env_name)
        = Ok ((λ key, Int (Z.of_nat match counts !! key with
                                    | Some n => n
                                    | None => 0
                                    end)) <$> types).
Proof.
  apply (counts_are_zero_filled (staging_only three_A_one_B) 1 fresh).
  - by vm_compute.
  - by vm_compute.
Defined.

(** C6.  In the simple report, for the tally of every environment fetched,
    the percentage column holds count / column total * 100 rounded to 2
    decimals and the waffle-cell column the same ratio rounded to the
    nearest integer, where the column total, the sum of the count column,
    is the total of the tally; when that total is 0 both columns hold 0 in
    every row and nothing is divided.  For counts 3 and 1 (total 4) the
    percentages are 75.0 and 25.0 and the waffle cells 75 and 25. *)
Theorem shares_are_rounded_ratios (w : Simple.World) (fuel : nat)
    (st st' : State) :
  Simple.main w fuel st = Some (Ok (), st') →
  tallies w fuel Simple.ENVIRONMENTS ≠ [] →
  ∃ df types,
    files st' !! Simple.OUTPUT_FILE = Some [("Local Unit Types", df)]
    ∧ types = Simple.all_types (tallies w fuel Simple.ENVIRONMENTS)
    ∧ (∀ env_name counts,
        (env_name, counts) ∈ tallies w fuel Simple.ENVIRONMENTS →
        let column := (λ key, Z.of_nat (counter_get counts key)) <$> types in
        let total := foldr Z.add 0%Z column in
        df_get df ("count_" +:+ env_name) = Ok (Int <$> column)
        ∧ total = Z.of_nat (counter_total counts)
        ∧ df_get df ("pct_" +:+ env_name)
          = Ok ((λ n, if bool_decide (total ≠ 0%Z)
                      then Float (round2 (share n total))
                      else Int 0) <$> column)
        ∧ df_get df ("waffle_cells_" +:+ env_name)
          = Ok ((λ n, if bool_decide (total ≠ 0%Z)
                      then Int (astype_int (rint (share n total)))
                      else Int 0) <$> column)
        ∧ (total = 0%Z →
           df_get df ("pct_" +:+ env_name) = Ok ((λ _, Int 0) <$> types)
           ∧ df_get df ("waffle_cells_" +:+ env_name)
             = Ok ((λ _, Int 0) <$> types)))
    ∧ round2 (share 3 4) = 75%float
    ∧ round2 (share 1 4) = 25%float
    ∧ astype_int (rint (share 3 4)) = 75%Z
    ∧ astype_int (rint (share 1 4)) = 25%Z.
Proof.
  intros Hrun Hsome. destruct (main_saves w fuel st st' Hrun Hsome) as [_ Hfile].
  eexists _, _. split; [exact Hfile|]. split; [done|].
  split; [|by vm_compute].
  intros env_name counts Hin column total.
  pose proof (tallies_NoDup w fuel _ ENVIRONMENTS_NoDup) as Hnd.
  destruct (report_shares (Simple.all_types (tallies w fuel Simple.ENVIRONMENTS))
              _ Hnd (env_name, counts) Hin) as [Hpct Hwaffle].
  cbn [fst snd] in Hpct, Hwaffle.
  split; [by apply (report_count _ _ Hnd (env_name, counts))|].
  split.
  { apply column_total; [apply all_types_NoDup|].
    intros key Hkey. apply elem_of_all_types. by exists (env_name, counts). }
  split; [exact Hpct|]. split; [exact Hwaffle|].
  intros Hzero. rewrite Hpct, Hwaffle.
  fold column total. unfold pct_cell, waffle_cell.
  rewrite !bool_decide_false by (by intros ?).
  unfold count_cells. by rewrite <- !list_fmap_compose.
Qed.

Lemma shares_of_three_A_one_B :
  let st' := state_after (Simple.main (staging_only three_A_one_B) 1 fresh) in
  (∃ df types,
    files st' !! Simple.OUTPUT_FILE = Some [("Local Unit Types", df)]
    ∧ types = Simple.all_types
                (tallies (staging_only three_A_one_B) 1 Simple.ENVIRONMENTS)
    ∧ (∀ env_name counts,
        (env_name, counts)
          ∈ tallies (staging_only three_A_one_B) 1 Simple.ENVIRONMENTS →
        let column := (λ key, Z.of_nat (counter_get counts key)) <$> types in
        let total := foldr Z.add 0%Z column in
        df_get df ("count_" +:+ env_name) = Ok (Int <$> column)
        ∧ total = Z.of_nat (counter_total counts)
        ∧ df_get df ("pct_" +:+ env_name)
          = Ok ((λ n, if bool_decide (total ≠ 0%Z)
                      then Float (round2 (share n total))
                      else Int 0) <$> column)
        ∧ df_get df ("waffle_cells_" +:+ env_name)
          = Ok ((λ n, if bool_decide (total ≠ 0%Z)
                      then Int (astype_int (rint (share n total)))
                      else Int 0) <$> column)
        ∧ (total = 0%Z →
           df_get df ("pct_" +:+ env_name) = Ok ((λ _, Int 0) <$> types)
           ∧ df_get df ("waffle_cells_" +:+ env_name)
             = Ok ((λ _, Int 0) <$> types)))
    ∧ round2 (share 3 4) = 75%float
    ∧ round2 (share 1 4) = 25%float
    ∧ astype_int (rint (share 3 4)) = 75%Z
    ∧ astype_int (rint (share 1 4)) = 25%Z)
  ∧ files st' !! Simple.OUTPUT_FILE
    = Some [("Local Unit Types",
             {| df_len := 2;
                df_columns :=
                  [("categories", [Str "A"; Str "B"]);
                   ("count_staging", [Int 3; Int 1]);
                   ("pct_staging", [Float 75; Float 25]);
                   ("waffle_cells_staging", [Int 75; Int 25])] |})].
Proof.
  split.
  - apply (shares_are_rounded_ratios (staging_only three_A_one_B) 1 fresh).
    + by vm_compute.
    + by vm_compute.
  - by vm_compute.
Defined.

(** An environment fetched without any local unit, beside one with local
    units: its count column holds 0 in every row, its total is 0, and its
    percentage and waffle-cell columns hold 0. *)
Example empty_tally_gets_zero_columns :
  files (state_after (Simple.main (both_reachable three_A_one_B []) 1 fresh))
    !! Simple.OUTPUT_FILE
  = Some [("Local Unit Types",
           {| df_len := 2;
              df_columns :=
                [("categories", [Str "A"; Str "B"]);
                 ("count_production", [Int 3; Int 1]);
                 ("count_staging", [Int 0; Int 0]);
                 ("pct_production", [Float 75; Float 25]);
                 ("waffle_cells_production", [Int 75; Int 25]);
                 ("pct_staging", [Int 0; Int 0]);
                 ("waffle_cells_staging", [Int 0; Int 0])] |})].
Proof. by vm_compute. Qed.

(** ** Runs of the treemap report *)

Section TreemapRun.
Variables (w : Treemap.World) (fuel : nat).

Lemma process_environment_cannot_fetch env_name urls st :
  cannot_fetch w fuel urls →
  ∃ line, Treemap.process_environment w fuel env_name urls st
          = Some (Ok None, print line st).
Proof.
  unfold cannot_fetch, Treemap.process_environment.
  destruct (Treemap.fetch_paginated (Treemap.countries_at w) fuel _)
    as [[countries|e]|]; [| |done].
  - destruct (Treemap.fetch_paginated (Treemap.local_units_at w) fuel _)
      as [[units|e]|]; [done| |done].
    destruct e; try done; by eexists.
  - destruct e; try done; by eexists.
Qed.

Lemma process_environments_cannot_fetch envs all_sheets st :
  (∀ env, env ∈ envs → cannot_fetch w fuel env.2) →
  ∃ st', Treemap.process_environments w fuel envs all_sheets st
         = Some (Ok all_sheets, st')
         ∧ files st' = files st.
Proof.
  revert st. induction envs as [|[env_name urls] envs IH]; intros st Hall.
  - by exists st.
  - destruct (process_environment_cannot_fetch env_name urls st) as [line Hp].
    { apply (Hall (env_name, urls)). left. }
    destruct (IH (print line st)) as (st' & Hrun & Hfiles).
    { intros env Hin. apply Hall. by right. }
    exists st'. cbn [Treemap.process_environments]. by rewrite Hp.
Qed.

#[global] Instance fetched_some_dec urls : Decision (fetched_some w fuel urls).
Proof.
  unfold fetched_some.
  destruct (Treemap.fetch_paginated (Treemap.countries_at w) fuel _)
    as [[countries|e]|]; [|apply _..].
  destruct (Treemap.fetch_paginated (Treemap.local_units_at w) fuel _)
    as [[[|u units]|e]|]; apply _.
Defined.

Lemma cannot_fetch_not_fetched urls :
  cannot_fetch w fuel urls → ¬ fetched_some w fuel urls.
Proof.
  unfold cannot_fetch, fetched_some.
  destruct (Treemap.fetch_paginated (Treemap.countries_at w) fuel _)
    as [[countries|e]|]; [|tauto..].
  destruct (Treemap.fetch_paginated (Treemap.local_units_at w) fuel _)
    as [[units|e]|]; tauto.
Qed.

(** The table of a counter that is not empty has the three columns, so
    [sort_values] finds the columns that it sorts by. *)
Lemma DataFrame_of_items (items : list (string * string * nat)) :
  items ≠ [] →
  DataFrame_of_rows
    (map (λ item : string * string * nat,
            [("categories", Str item.1.1); ("Region", Str item.1.2);
             ("count", Int (Z.of_nat item.2))]) items)
  = {| df_len := length items;
       df_columns :=
         [("categories", Str <$> ((λ item, item.1.1) <$> items));
          ("Region", Str <$> ((λ item, item.1.2) <$> items));
          ("count", Int <$> ((λ item, Z.of_nat item.2) <$> items))] |}.
Proof.
  intros Hne. unfold DataFrame_of_rows. rewrite length_map.
  assert (concat (map (map fst)
            (map (λ item : string * string * nat,
                    [("categories", Str item.1.1); ("Region", Str item.1.2);
                     ("count", Int (Z.of_nat item.2))]) items))
          = concat (replicate (length items) ["categories"; "Region"; "count"]))
    as ->.
  { f_equal. clear Hne. induction items as [|item items IH]; [done|].
    simpl. by rewrite <- IH. }
  destruct (length items) as [|n] eqn:Hlen; [by apply nil_length_inv in Hlen|].
  rewrite first_seen_uniform by (by apply (bool_decide_unpack _)).
  cbn [map]. rewrite <- !list_fmap_compose. done.
Qed.

Lemma sort_values_items (items : list (string * string * nat)) :
  items ≠ [] →
  ∃ df,
    Treemap.sort_values
      (DataFrame_of_rows
         (map (λ item : string * string * nat,
                 [("categories", Str item.1.1); ("Region", Str item.1.2);
                  ("count", Int (Z.of_nat item.2))]) items))
      ["categories"; "Region"]
    = Ok df.
Proof.
  intros Hne. rewrite DataFrame_of_items by done.
  unfold Treemap.sort_values. cbn [mapM].
  set (df := {| df_len := length items; df_columns := _ |}).
  assert (df_get df "categories"
          = Ok (Str <$> ((λ item, item.1.1) <$> items))) as -> by done.
  assert (df_get df "Region"
          = Ok (Str <$> ((λ item, item.1.2) <$> items))) as -> by done.
  cbn [mbind result_bind]. rewrite !strs_Str.
  cbn [mbind result_bind mret result_ret]. by eexists.
Qed.

Lemma count_by_type_region_nonempty mapping u units :
  (Treemap.count_by_type_region mapping (u :: units)).1 ≠ ∅.
Proof.
  rewrite count_by_type_region_counter. intros Hempty.
  assert (type_region_key mapping u
          ∈ dom (tally (type_region_key mapping) ∅ (u :: units))) as Hin.
  { apply tally_dom. right. exists u. split; [left|done]. }
  rewrite Hempty, dom_empty_L in Hin. by apply elem_of_empty in Hin.
Qed.

Lemma process_environment_fetched env_name urls st :
  fetched_some w fuel urls →
  ∃ df st', Treemap.process_environment w fuel env_name urls st
            = Some (Ok (Some df), st')
            ∧ files st' = files st.
Proof.
  unfold fetched_some, Treemap.process_environment.
  destruct (Treemap.fetch_paginated (Treemap.countries_at w) fuel _)
    as [[countries|e]|]; [|done..].
  destruct (Treemap.fetch_paginated (Treemap.local_units_at w) fuel _)
    as [[[|u units]|e]|]; [done| |done..].
  intros _. cbv zeta.
  set (counted := Treemap.count_by_type_region _ _).
  destruct (sort_values_items (merge_sort Treemap.item_le (map_to_list counted.1)))
    as [df Hdf].
  { intros Hnil. apply (count_by_type_region_nonempty
      (Treemap.build_country_to_region countries) u units).
    apply map_to_list_empty_iff. apply Permutation_nil_r.
    fold counted. by rewrite <- (merge_sort_Permutation Treemap.item_le), Hnil. }
  rewrite Hdf. eexists _, _. split; [done|]. by case_decide.
Qed.

Lemma process_environments_settled envs all_sheets st :
  (∀ env, env ∈ envs →
     cannot_fetch w fuel env.2 ∨ fetched_some w fuel env.2) →
  ∃ st' sheets,
    Treemap.process_environments w fuel envs all_sheets st
    = Some (Ok (all_sheets ++ sheets), st')
    ∧ files st' = files st
    ∧ sheets.*1 = (filter (λ env, fetched_some w fuel env.2) envs).*1.
Proof.
  revert all_sheets st.
  induction envs as [|[env_name urls] envs IH]; intros all_sheets st Hall.
  - exists st, []. by rewrite app_nil_r.
  - specialize (λ all_sheets st,
      IH all_sheets st ltac:(intros; apply Hall; by right)).
    cbn [Treemap.process_environments]. rewrite filter_cons. cbn [snd].
    destruct (Hall (env_name, urls) ltac:(left)) as [Hno|Hyes].
    + destruct (process_environment_cannot_fetch env_name urls st Hno)
        as [line Hp].
      rewrite Hp. destruct (IH all_sheets (print line st))
        as (st' & sheets & Hrun & Hfiles & Hnames).
      exists st', sheets. rewrite decide_False
        by (by apply cannot_fetch_not_fetched).
      done.
    + destruct (process_environment_fetched env_name urls st Hyes)
        as (df & st1 & Hp & Hfiles1).
      rewrite Hp. destruct (IH (all_sheets ++ [(env_name, df)]) st1)
        as (st' & sheets & Hrun & Hfiles & Hnames).
      exists st', ((env_name, df) :: sheets). rewrite decide_True by done.
      rewrite Hrun, <- (assoc_L (++)). split; [done|].
      split; [congruence|]. rewrite !fmap_cons. by rewrite Hnames.
Qed.

End TreemapRun.

(** ** Runs in which no environment can be fetched *)

(** C8.  When every environment fails to fetch, with a connection error or
    an HTTP error status, the run prints the terminal error message and
    returns before any file is written: the files are those of before the
    run.  This holds for the simple and for the treemap report. *)
Theorem no_environment_no_file (ws : Simple.World) (wt : Treemap.World)
    (fuel : nat) (st : State) :
  (∀ env, env ∈ Simple.ENVIRONMENTS →
     ∃ e, Simple.fetch_all_local_units ws fuel env.2 = Some (Raise e)
          ∧ caught e = true) →
  (∀ env, env ∈ Treemap.ENVIRONMENTS → cannot_fetch wt fuel env.2) →
  (∃ st', Simple.main ws fuel st = Some (Ok (), st')
          ∧ files st' = files st
          ∧ last (stdout st') = Some NoEnvironment)
  ∧ (∃ st', Treemap.main wt fuel st = Some (Ok (), st')
            ∧ files st' = files st
            ∧ last (stdout st') = Some NoEnvironment).
Proof.
  intros Hs Ht. split.
  - assert (∀ env, env ∈ Simple.ENVIRONMENTS → settled ws fuel env.2) as Hall.
    { intros env Hin. destruct (Hs env Hin) as (e & He & Hc).
      unfold settled. by rewrite He. }
    assert (tallies ws fuel Simple.ENVIRONMENTS = []) as Hnone.
    { apply tallies_none. intros env Hin.
      destruct (Hs env Hin) as (e & He & _). unfold tally_of. by rewrite He. }
    eexists. unfold Simple.main.
    rewrite (main_over_settled _ _ _ _ ENVIRONMENTS_NoDup Hall), Hnone.
    split; [done|]. split; [done|]. simpl. by rewrite last_snoc.
  - destruct (process_environments_cannot_fetch wt fuel _ [] st Ht)
      as (st' & Hrun & Hfiles).
    eexists. unfold Treemap.main, Treemap.main_over. rewrite Hrun.
    split; [done|]. split; [done|]. simpl. by rewrite last_snoc.
Qed.

Lemma nothing_reachable_no_file :
  (∃ st', Simple.main nothing_reachable 1 fresh = Some (Ok (), st')
          ∧ files st' = files fresh
          ∧ last (stdout st') = Some NoEnvironment)
  ∧ (∃ st', Treemap.main treemap_nothing_reachable 1 fresh = Some (Ok (), st')
            ∧ files st' = files fresh
            ∧ last (stdout st') = Some NoEnvironment).
Proof.
  apply (no_environment_no_file nothing_reachable treemap_nothing_reachable 1).
  - intros env _. by exists ConnectionError.
  - intros env _. done.
Defined.

(** ** Runs in which some environment is skipped *)

(** C7, at an input on which the scripts raise.  Production cannot be
    reached and staging is fetched, with no local unit in its listing: the
    simple report raises [KeyError] on the count column of staging, which
    the empty table does not have, and the treemap report raises [KeyError]
    on the column that [sort_values] sorts the empty table by; neither run
    writes a file. *)
Theorem skipping_run_raises_on_empty_listing :
  Simple.main (staging_only []) 1 fresh
  = Some (Raise (KeyError "count_staging"),
          {| stdout := [WarnUnreachable "production"]; files := ∅ |})
  ∧ Treemap.main
      (treemap_staging_only [{| c_id := Some 1%Z; c_region := Some 2%Z |}] [])
      1 fresh
    = Some (Raise (KeyError "categories"),
            {| stdout := [WarnUnreachable "production"]; files := ∅ |}).
Proof. split; by vm_compute. Qed.

(** In the simple report, when the fetch of every environment ends, in
    records or in a connection error or an HTTP error status, and some
    record was fetched, the run ends without exception: it prints one
    warning for every environment skipped and writes one table, whose
    columns are those of the environments fetched and no other. *)
Theorem skipped_environments_leave_no_column (w : Simple.World) (fuel : nat)
    (st : State) :
  (∀ env, env ∈ Simple.ENVIRONMENTS → settled w fuel env.2) →
  Simple.all_types (tallies w fuel Simple.ENVIRONMENTS) ≠ [] →
  ∃ df,
    Simple.main w fuel st
    = Some (Ok (),
            print (Saved Simple.OUTPUT_FILE)
              (write_file Simple.OUTPUT_FILE [("Local Unit Types", df)]
                 (warned w fuel Simple.ENVIRONMENTS st)))
    ∧ (df_columns df).*1
      = "categories"
        :: ((λ env_name, "count_" +:+ env_name)
            <$> (tallies w fuel Simple.ENVIRONMENTS).*1)
        ++ concat ((λ env_name, ["pct_" +:+ env_name;
                                 "waffle_cells_" +:+ env_name])
                   <$> (tallies w fuel Simple.ENVIRONMENTS).*1).
Proof.
  intros Hall Hsome.
  pose proof (main_over_settled w fuel _ st ENVIRONMENTS_NoDup Hall) as Hrun.
  fold Simple.main in Hrun.
  destruct (tallies w fuel Simple.ENVIRONMENTS) as [|p env_counts] eqn:Ht.
  - destruct Hsome. by vm_compute.
  - destruct (Simple.all_types (p :: env_counts)) as [|t types] eqn:Hty; [done|].
    eexists. split; [exact Hrun|]. apply report_names.
Qed.

Lemma staging_only_leaves_no_production_column :
  ∃ df,
    Simple.main (staging_only three_A_one_B) 1 fresh
    = Some (Ok (),
            print (Saved Simple.OUTPUT_FILE)
              (write_file Simple.OUTPUT_FILE [("Local Unit Types", df)]
                 (warned (staging_only three_A_one_B) 1
                    Simple.ENVIRONMENTS fresh)))
    ∧ (df_columns df).*1
      = "categories"
        :: ((λ env_name, "count_" +:+ env_name)
            <$> (tallies (staging_only three_A_one_B) 1
                   Simple.ENVIRONMENTS).*1)
        ++ concat ((λ env_name, ["pct_" +:+ env_name;
                                 "waffle_cells_" +:+ env_name])
                   <$> (tallies (staging_only three_A_one_B) 1
                          Simple.ENVIRONMENTS).*1).
Proof.
  apply (skipped_environments_leave_no_column (staging_only three_A_one_B) 1).
  - intros env Hin. apply list_elem_of_In in Hin.
    destruct Hin as [<-|[<-|[]]]; by vm_compute.
  - by vm_compute.
Defined.

(** In the treemap report, when every environment either cannot be fetched,
    with a connection error or an HTTP error status, or is fetched with
    some local unit in its listing, and one environment is fetched, the run
    ends without exception and writes one workbook, with one sheet for
    every environment fetched, named by the capitalized environment name,
    and no other sheet. *)
Theorem unreachable_environments_leave_no_sheet (w : Treemap.World)
    (fuel : nat) (st : State) :
  (∀ env, env ∈ Treemap.ENVIRONMENTS →
     cannot_fetch w fuel env.2 ∨ fetched_some w fuel env.2) →
  (∃ env, env ∈ Treemap.ENVIRONMENTS ∧ fetched_some w fuel env.2) →
  ∃ st' sheets,
    Treemap.main w fuel st = Some (Ok (), st')
    ∧ files st' = <[Treemap.OUTPUT_FILE := sheets]> (files st)
    ∧ sheets.*1
      = Treemap.capitalize
        <$> (filter (λ env, fetched_some w fuel env.2) Treemap.ENVIRONMENTS).*1.
Proof.
  intros Hall (env & Hin & Hyes).
  destruct (process_environments_settled w fuel _ [] st Hall)
    as (st1 & sheets & Hrun & Hfiles & Hnames).
  unfold Treemap.main, Treemap.main_over. rewrite Hrun. simpl.
  destruct sheets as [|sheet sheets].
  - exfalso. symmetry in Hnames. apply fmap_nil_inv in Hnames.
    assert (env ∈ filter (λ env, fetched_some w fuel env.2) Treemap.ENVIRONMENTS)
      as Hfiltered by (by apply list_elem_of_filter).
    rewrite Hnames in Hfiltered. by apply elem_of_nil in Hfiltered.
  - eexists _, _. split; [done|]. simpl. split; [by rewrite Hfiles|].
    rewrite <- Hnames. rewrite !fmap_cons. simpl. f_equal.
    rewrite <- !list_fmap_compose. done.
Qed.

Lemma treemap_staging_only_leaves_one_sheet :
  ∃ st' sheets,
    Treemap.main
      (treemap_staging_only [{| c_id := Some 1%Z; c_region := Some 2%Z |}]
         [{| lu_type_details := Some {| td_name := Some "A" |};
             lu_country := Some 1%Z |}])
      1 fresh
    = Some (Ok (), st')
    ∧ files st' = <[Treemap.OUTPUT_FILE := sheets]> (files fresh)
    ∧ sheets.*1
      = Treemap.capitalize
        <$> (filter
               (λ env,
                  fetched_some
                    (treemap_staging_only
                       [{| c_id := Some 1%Z; c_region := Some 2%Z |}]
                       [{| lu_type_details := Some {| td_name := Some "A" |};
                           lu_country := Some 1%Z |}])
                    1 env.2)
               Treemap.ENVIRONMENTS).*1.
Proof.
  apply unreachable_environments_leave_no_sheet.
  - intros env Hin. apply list_elem_of_In in Hin.
    destruct Hin as [<-|[<-|[]]]; [by left|by right].
  - eexists. split; [right; left|]. done.
Defined.

(** * Further properties of the code

    ** The fetcher: offsets, number of requests, failures, missing keys *)

Section FetcherMore.
Context {A : Type}.
Implicit Types (server : nat → Z → Response A).

Lemma fetch_loop_ext server server' fuel k acc :
  (∀ j, server j (LIMIT * Z.of_nat j)%Z = server' j (LIMIT * Z.of_nat j)%Z) →
  fetch_loop server fuel k (LIMIT * Z.of_nat k) acc
  = fetch_loop server' fuel k (LIMIT * Z.of_nat k) acc.
Proof.
  intros Hsame. revert k acc.
  induction fuel as [|fuel IH]; intros k acc; [done|].
  simpl. rewrite Hsame. destruct (get _) as [data|e]; [|done].
  destruct (_ || _); [done|].
  replace (LIMIT * Z.of_nat k + LIMIT)%Z with (LIMIT * Z.of_nat (S k))%Z by lia.
  apply IH.
Qed.

(** The k-th request of a fetch carries the offset [LIMIT * k], whatever
    the pages hold: two servers that answer alike at those offsets are
    fetched alike, so no offset is skipped or asked twice. *)
Theorem fetch_asks_offsets_in_steps_of_LIMIT server server' (fuel : nat) :
  (∀ k, server k (LIMIT * Z.of_nat k)%Z = server' k (LIMIT * Z.of_nat k)%Z) →
  fetch server fuel = fetch server' fuel.
Proof. intros Hsame. by apply (fetch_loop_ext server server' fuel 0 []). Qed.

(** When no page reports a count above [B], the fetcher issues at least
    one and at most [B / LIMIT + 1] requests, and returns with that much
    fuel, however many records the pages hold. *)
Theorem fetch_requests_are_bounded server (B : Z) (fuel : nat) :
  (∀ k data,
     nth_page server k = Ok data → (default 0 (page_count data) ≤ B)%Z) →
  Z.to_nat (B / LIMIT) < fuel →
  ∃ r n, fetch server fuel = Some (r, n) ∧ 1 ≤ n ≤ S (Z.to_nat (B / LIMIT)).
Proof.
  intros Hbound Hfuel.
  destruct (first_stop server _ (bounded_counts_stop server B Hbound))
    as (n & Hn & Hstop & Hbefore).
  exists (outcome_at server n (delivered server n)), (S n). split; [|lia].
  replace fuel with (n + S (fuel - S n)) by lia.
  rewrite fetch_run by done. by apply fetch_loop_stop.
Qed.

(** A request that fails, by a connection error, a timeout or a status
    from 400 to 599, ends the fetch in that exception: the records of the
    pages fetched before it are not returned. *)
Theorem failed_request_aborts_fetch server (n : nat) (e : exn) (fuel : nat) :
  (∀ j, j < n → ¬ stops_at server j) →
  nth_page server n = Raise e →
  n < fuel →
  fetch server fuel = Some (Raise e, S n).
Proof.
  intros Hbefore Hfail Hfuel.
  replace fuel with (n + S (fuel - S n)) by lia.
  rewrite fetch_run by done. rewrite fetch_loop_stop.
  - unfold outcome_at. by rewrite Hfail.
  - unfold stops_at. by rewrite Hfail.
Qed.

(** A page without the key "count" or without the key "results" ends the
    fetch without error: a missing count reads as 0 and missing results as
    no record, so the fetch returns the records up to and on that page. *)
Theorem page_without_key_ends_fetch server (n : nat) (data : Page A)
    (fuel : nat) :
  (∀ j, j < n → ¬ stops_at server j) →
  nth_page server n = Ok data →
  page_count data = None ∨ page_results data = None →
  n < fuel →
  fetch server fuel
  = Some (Ok (delivered server n ++ default [] (page_results data)), S n).
Proof.
  intros Hbefore Hpage Hmissing Hfuel.
  replace fuel with (n + S (fuel - S n)) by lia.
  rewrite fetch_run by done. rewrite fetch_loop_stop.
  - unfold outcome_at. by rewrite Hpage.
  - unfold stops_at. rewrite Hpage.
    destruct Hmissing as [-> | ->]; [left|by right].
    simpl. unfold LIMIT. lia.
Qed.

End FetcherMore.

Lemma offsets_off_the_steps_are_never_asked :
  let server := mock [page_of 60 (replicate 50 some_unit);
                      page_of 60 (replicate 10 some_unit)] (λ _ _, TimedOut) in
  let server' : nat → Z → Response LocalUnit :=
    λ k offset,
      if decide (offset = LIMIT * Z.of_nat k)%Z then server k offset
      else Unreachable in
  fetch server 3 = fetch server' 3.
Proof.
  intros server server'.
  apply (fetch_asks_offsets_in_steps_of_LIMIT server server' 3).
  intros k. unfold server'. by rewrite decide_True.
Defined.

Lemma count_120_takes_three_requests :
  let server : nat → Z → Response LocalUnit :=
    λ _ _, Http 200 (page_of 120 [some_unit]) in
  (∃ r n, fetch server 3 = Some (r, n) ∧ 1 ≤ n ≤ S (Z.to_nat (120 / LIMIT)))
  ∧ fetch server 3 = Some (Ok [some_unit; some_unit; some_unit], 3).
Proof.
  intros server. split; [|by vm_compute].
  apply (fetch_requests_are_bounded server 120 3).
  - intros k data Hk. unfold nth_page, server in Hk. by simplify_eq/=.
  - by vm_compute.
Defined.

Lemma second_page_unreachable_loses_the_first :
  let server :=
    mock [page_of 120 (replicate 50 some_unit)] (λ _ _, Unreachable) in
  fetch server 5 = Some (Raise ConnectionError, 2).
Proof.
  intros server. apply (failed_request_aborts_fetch server 1 ConnectionError 5).
  - intros [|j] Hj; [|lia]. unfold stops_at. simpl.
    intros [Hc|He]; [unfold LIMIT in Hc; lia|done].
  - done.
  - lia.
Defined.

Lemma page_without_count_is_the_last :
  let server :=
    mock [{| page_count := None; page_results := Some (replicate 50 some_unit) |};
          page_of 120 [some_unit]] (λ _ _, TimedOut) in
  fetch server 5 = Some (Ok (replicate 50 some_unit), 1).
Proof.
  intros server.
  apply (page_without_key_ends_fetch server 0
           {| page_count := None;
              page_results := Some (replicate 50 some_unit) |} 5).
  - intros j Hj. lia.
  - done.
  - by left.
  - lia.
Defined.

(** ** The aggregators: keys present, order of the records, concatenation *)

Lemma tally_lookup `{Countable K} {R : Type} (key : R → K)
    (records : list R) (k : K) :
  tally key ∅ records !! k
  = match length (filter (λ r, key r = k) records) with
    | O => None
    | S n => Some (S n)
    end.
Proof.
  pose proof (tally_get key ∅ records k) as Hget.
  pose proof (tally_dom key ∅ records k) as Hdom.
  unfold counter_get in Hget. rewrite lookup_empty in Hget. simpl in Hget.
  rewrite elem_of_dom in Hdom.
  destruct (tally key ∅ records !! k) as [v|] eqn:Hk; simpl in Hget.
  - destruct Hdom as [[Hin|(r & Hr & Hkey)] _]; [by eexists| |].
    { rewrite dom_empty_L in Hin. by apply elem_of_empty in Hin. }
    assert (r ∈ filter (λ r, key r = k) records) as Hfiltered
      by (by apply list_elem_of_filter).
    destruct (filter (λ r, key r = k) records) as [|r' l]; simpl in *.
    + by apply elem_of_nil in Hfiltered.
    + by rewrite Hget.
  - by rewrite <- Hget.
Qed.

(** The tally has an entry for exactly the category keys that occur among
    the records, with the number of records of that key: no key is stored
    with the count 0.  This holds for the type tally of the simple report
    and for the (type, region) tally of the treemap report. *)
Theorem tally_holds_the_keys_seen (records : list LocalUnit)
    (country_to_region : gmap Z string) :
  (∀ key n,
      Simple.count_types records !! key = Some n
      ↔ 1 ≤ n
        ∧ n = length (filter (λ r, type_key "Unknown / No Type" r = key)
                             records))
  ∧ (∀ key n,
      (Treemap.count_by_type_region country_to_region records).1 !! key
      = Some n
      ↔ 1 ≤ n
        ∧ n = length (filter (λ r, (type_key "Unknown Type" r,
                                    region_key country_to_region r) = key)
                             records)).
Proof.
  split; intros key n.
  - rewrite count_types_tally, tally_lookup.
    destruct (length _); split; [done|lia|intros [= <-]; lia|].
    intros [_ ->]. done.
  - rewrite count_by_type_region_counter, tally_lookup.
    unfold type_region_key.
    destruct (length _); split; [done|lia|intros [= <-]; lia|].
    intros [_ ->]. done.
Qed.

Lemma tally_Permutation `{Countable K} {R : Type} (key : R → K)
    (records records' : list R) :
  records ≡ₚ records' → tally key ∅ records = tally key ∅ records'.
Proof.
  intros Hperm. apply map_eq. intros k. rewrite !tally_lookup.
  by rewrite Hperm.
Qed.

(** The tallies do not depend on the order in which the records arrive:
    two lists with the same records give the same type tally, the same
    (type, region) tally and the same set of unresolved country ids. *)
Theorem tallies_ignore_the_order_of_records (records records' : list LocalUnit)
    (country_to_region : gmap Z string) :
  records ≡ₚ records' →
  Simple.count_types records = Simple.count_types records'
  ∧ Treemap.count_by_type_region country_to_region records
    = Treemap.count_by_type_region country_to_region records'.
Proof.
  intros Hperm. split.
  - rewrite !count_types_tally. by apply tally_Permutation.
  - unfold Treemap.count_by_type_region.
    rewrite !count_by_type_region_from. f_equal.
    + by apply tally_Permutation.
    + by rewrite Hperm.
Qed.

Lemma two_orders_one_tally :
  let records := [unit_of_type "A"; unit_of_type "B"; some_unit] in
  let records' := [some_unit; unit_of_type "B"; unit_of_type "A"] in
  Simple.count_types records = Simple.count_types records'
  ∧ Treemap.count_by_type_region ∅ records
    = Treemap.count_by_type_region ∅ records'.
Proof.
  intros records records'.
  apply (tallies_ignore_the_order_of_records records records' ∅).
  unfold records, records'.
  rewrite (Permutation_swap some_unit (unit_of_type "B")).
  apply Permutation_cons_append.
Defined.

(** The tally of the records of several pages is the sum of the tallies of
    the pages: for every key, the count over a concatenation is the sum of
    the counts over its parts. *)
Theorem tally_of_a_concatenation_adds_up (records more : list LocalUnit)
    (country_to_region : gmap Z string) :
  (∀ key,
      counter_get (Simple.count_types (records ++ more)) key
      = counter_get (Simple.count_types records) key
        + counter_get (Simple.count_types more) key)
  ∧ (∀ key,
      counter_get
        (Treemap.count_by_type_region country_to_region (records ++ more)).1 key
      = counter_get
          (Treemap.count_by_type_region country_to_region records).1 key
        + counter_get
            (Treemap.count_by_type_region country_to_region more).1 key).
Proof.
  split; intros key.
  - rewrite (count_types_tally (records ++ more)), (count_types_tally records),
      (count_types_tally more), !tally_get, filter_app, length_app.
    unfold counter_get. rewrite lookup_empty. simpl. lia.
  - rewrite (count_by_type_region_counter _ (records ++ more)),
      (count_by_type_region_counter _ records),
      (count_by_type_region_counter _ more), !tally_get, filter_app, length_app.
    unfold counter_get. rewrite lookup_empty. simpl. lia.
Qed.

(** ** The region resolver: which countries are mapped, which names it gives *)

Lemma string_length_app (s t : string) :
  String.length (s +:+ t) = String.length s + String.length t.
Proof.
  induction s as [|c s IH]; [done|].
  change (S (String.length (s +:+ t)) = S (String.length s) + String.length t).
  by rewrite IH.
Qed.

Lemma string_app_inj_r (s1 s2 t : string) : s1 +:+ t = s2 +:+ t → s1 = s2.
Proof.
  revert s2. induction s1 as [|c1 s1 IH]; intros [|c2 s2] Heq.
  - done.
  - apply (f_equal String.length) in Heq.
    rewrite (string_length_app (String c2 s2)) in Heq.
    change ("" +:+ t) with t in Heq. simpl in Heq. lia.
  - apply (f_equal String.length) in Heq.
    rewrite (string_length_app (String c1 s1)) in Heq.
    change ("" +:+ t) with t in Heq. simpl in Heq. lia.
  - change (String c1 (s1 +:+ t) = String c2 (s2 +:+ t)) in Heq.
    injection Heq as -> Heq. f_equal. by apply IH.
Qed.

Lemma region_name_of_table (region_id : Z) (name : string) :
  Treemap.REGION_MAP !! region_id = Some name →
  (region_id, name)
  ∈ [(0%Z, "Africa"); (1%Z, "Americas"); (2%Z, "Asia Pacific");
     (3%Z, "Europe"); (4%Z, "MENA")].
Proof. apply elem_of_list_to_map_2. Qed.

Lemma region_name_of_not_sentinel (region_id : Z) :
  Treemap.region_name_of region_id ≠ "Unknown Region".
Proof.
  unfold Treemap.region_name_of.
  destruct (Treemap.REGION_MAP !! region_id) as [name|] eqn:Hname; simpl.
  - apply region_name_of_table in Hname.
    repeat (apply elem_of_cons in Hname as [Hname|Hname];
            [by simplify_eq|]).
    by apply elem_of_nil in Hname.
  - done.
Qed.

(** Distinct region codes never share a region name: the five names of
    the table differ, no label "Unknown (<code>)" is one of them, and the
    labels of two codes outside the table differ. *)
Theorem region_names_tell_the_codes_apart (region_id region_id' : Z) :
  Treemap.region_name_of region_id = Treemap.region_name_of region_id'
  ↔ region_id = region_id'.
Proof.
  split; [|by intros ->]. unfold Treemap.region_name_of.
  destruct (Treemap.REGION_MAP !! region_id) as [name|] eqn:Hname;
    destruct (Treemap.REGION_MAP !! region_id') as [name'|] eqn:Hname';
    simpl.
  - intros ->. apply region_name_of_table in Hname, Hname'.
    repeat (apply elem_of_cons in Hname as [Hname|Hname];
            [repeat (apply elem_of_cons in Hname' as [Hname'|Hname'];
                     [by simplify_eq|]);
             by apply elem_of_nil in Hname'|]).
    by apply elem_of_nil in Hname.
  - intros ->. apply region_name_of_table in Hname.
    repeat (apply elem_of_cons in Hname as [Hname|Hname];
            [by simplify_eq|]).
    by apply elem_of_nil in Hname.
  - intros <-. apply region_name_of_table in Hname'.
    repeat (apply elem_of_cons in Hname' as [Hname'|Hname'];
            [by simplify_eq|]).
    by apply elem_of_nil in Hname'.
  - intros Heq. apply (inj (String.append "Unknown (")) in Heq.
    apply string_app_inj_r in Heq. by apply (inj pretty) in Heq.
Qed.

(** The mapping holds exactly the ids of the countries that have both an
    id and a region code: a country whose id or region is missing or null
    is passed over. *)
Theorem only_complete_countries_are_mapped (countries : list Country) (i : Z) :
  i ∈ dom (Treemap.build_country_to_region countries)
  ↔ ∃ c, c ∈ countries ∧ c_id c = Some i ∧ is_Some (c_region c).
Proof.
  rewrite elem_of_dom, build_country_to_region_lookup, fmap_is_Some.
  unfold last_region. rewrite last_is_Some. split.
  - intros Hne.
    destruct (omap _ countries) as [|region_id l] eqn:Hl; [done|].
    assert (region_id ∈ region_id :: l) as Hin by left.
    rewrite <- Hl in Hin. apply list_elem_of_omap in Hin as (c & Hc & Hr).
    exists c. split; [done|].
    destruct (c_id c) as [j|], (c_region c) as [r|]; try done.
    by case_decide; simplify_eq.
  - intros (c & Hc & Hid & [r Hr]) Hnil.
    assert (r ∈ omap (λ c, match c_id c, c_region c with
                           | Some j, Some region_id =>
                               if decide (j = i) then Some region_id else None
                           | _, _ => None
                           end) countries) as Hin.
    { apply list_elem_of_omap. exists c. split; [done|].
      rewrite Hid, Hr. by rewrite decide_True. }
    rewrite Hnil in Hin. by apply elem_of_nil in Hin.
Qed.

(** The row of the region "Unknown Region" counts exactly the local units
    whose country is not in the mapping: no country of the listing is
    given that name.  The set of unresolved ids is empty exactly when
    every local unit has a mapped country, and a local unit without
    country puts [None] into it. *)
Theorem unknown_region_holds_the_unresolved_units (countries : list Country)
    (local_units : list LocalUnit) (type_name : string) :
  let country_to_region := Treemap.build_country_to_region countries in
  let counted := Treemap.count_by_type_region country_to_region local_units in
  counter_get counted.1 (type_name, "Unknown Region")
  = length (filter (λ u, type_key "Unknown Type" u = type_name
                         ∧ Treemap.region_of country_to_region (lu_country u)
                           = None) local_units)
  ∧ (counted.2 = ∅
     ↔ ∀ u, u ∈ local_units →
            is_Some (Treemap.region_of country_to_region (lu_country u)))
  ∧ (∀ u, u ∈ local_units → lu_country u = None → None ∈ counted.2).
Proof.
  intros country_to_region counted. split; [|split].
  - unfold counted. rewrite count_by_type_region_counter, tally_get.
    unfold counter_get. rewrite lookup_empty. simpl. f_equal.
    apply list_filter_iff. intros u. unfold type_region_key, region_key.
    destruct (Treemap.region_of country_to_region (lu_country u))
      as [name|] eqn:Hname; simpl.
    + split; [|by intros [_ ?]]. intros [= _ ->]. exfalso.
      destruct (lu_country u) as [i|]; [|done]. simpl in Hname.
      unfold country_to_region in Hname.
      rewrite build_country_to_region_lookup in Hname.
      apply fmap_Some in Hname as (r & _ & Hr).
      by apply (region_name_of_not_sentinel r).
    + split; [by intros [= ->]|by intros [-> _]].
  - split.
    + intros Hempty u Hu.
      destruct (Treemap.region_of country_to_region (lu_country u))
        as [name|] eqn:Hname; [by eexists|].
      assert (lu_country u ∈ counted.2) as Hin.
      { apply count_by_type_region_unresolved. eauto. }
      rewrite Hempty in Hin. by apply elem_of_empty in Hin.
    + intros Hall. apply set_eq. intros c. split.
      * intros Hin.
        apply count_by_type_region_unresolved in Hin as (u & Hu & <- & Hnone).
        destruct (Hall u Hu) as [name Hname]. congruence.
      * intros Hin. by apply elem_of_empty in Hin.
  - intros u Hu Hnone. apply count_by_type_region_unresolved.
    exists u. split; [done|]. split; [done|]. done.
Qed.

(** ** The sheet of the treemap report *)

Lemma string_compare_refl (a : string) : String.compare a a = Eq.
Proof. by apply String_as_OT.cmp_eq. Qed.

Lemma string_compare_Lt_trans (a b c : string) :
  String.compare a b = Lt → String.compare b c = Lt → String.compare a c = Lt.
Proof.
  intros Hab Hbc. apply String_as_OT.cmp_lt.
  apply String_as_OT.cmp_lt in Hab, Hbc.
  by eapply String_as_OT.lt_trans.
Qed.

Lemma compare_keys_Eq (a b : list string) :
  Treemap.compare_keys a b = Eq ↔ a = b.
Proof.
  revert b. induction a as [|x a IH]; intros [|y b]; simpl; try done.
  destruct (String.compare x y) eqn:Hxy.
  - apply String.compare_eq_iff in Hxy as ->. rewrite IH.
    split; [by intros ->|by intros [= ->]].
  - split; [done|]. intros [= -> _]. by rewrite string_compare_refl in Hxy.
  - split; [done|]. intros [= -> _]. by rewrite string_compare_refl in Hxy.
Qed.

Lemma compare_keys_antisym (a b : list string) :
  Treemap.compare_keys b a = CompOpp (Treemap.compare_keys a b).
Proof.
  revert b. induction a as [|x a IH]; intros [|y b]; simpl; try done.
  rewrite (String.compare_antisym x y).
  destruct (String.compare y x); simpl; [apply IH|done..].
Qed.

Lemma compare_keys_Lt_trans (a b c : list string) :
  Treemap.compare_keys a b = Lt → Treemap.compare_keys b c = Lt →
  Treemap.compare_keys a c = Lt.
Proof.
  revert b c. induction a as [|x a IH]; intros [|y b] [|z c]; simpl; try done.
  destruct (String.compare x y) eqn:Hxy; [|intros _|done].
  - apply String.compare_eq_iff in Hxy as ->.
    destruct (String.compare y z); [apply IH|done..].
  - destruct (String.compare y z) eqn:Hyz; [|intros _|done].
    + apply String.compare_eq_iff in Hyz as <-. by rewrite Hxy.
    + by rewrite (string_compare_Lt_trans x y z).
Qed.

#[global] Instance key_le_total : Total Treemap.key_le.
Proof.
  intros [a i] [b j]. unfold Treemap.key_le. simpl.
  rewrite (compare_keys_antisym a b).
  destruct (Treemap.compare_keys a b); simpl; [lia|by left|by right].
Qed.

#[global] Instance key_le_trans : Transitive Treemap.key_le.
Proof.
  intros [a i] [b j] [c k]. unfold Treemap.key_le. simpl.
  destruct (Treemap.compare_keys a b) eqn:Hab; [| |done].
  - apply compare_keys_Eq in Hab as ->.
    destruct (Treemap.compare_keys b c); [lia|done..].
  - intros _. destruct (Treemap.compare_keys b c) eqn:Hbc; [| |done].
    + apply compare_keys_Eq in Hbc as <-. by rewrite Hab.
    + by rewrite (compare_keys_Lt_trans a b c).
Qed.

#[global] Instance key_le_antisymm : AntiSymm (=) Treemap.key_le.
Proof.
  intros [a i] [b j]. unfold Treemap.key_le. simpl.
  rewrite (compare_keys_antisym a b).
  destruct (Treemap.compare_keys a b) eqn:Hab; simpl; [|done..].
  apply compare_keys_Eq in Hab as ->. intros ??. f_equal. lia.
Qed.

(** The order of the items is the order of their keys, then counts. *)
Lemma item_le_key_le (a b : string * string * nat) :
  Treemap.item_le a b
  ↔ Treemap.key_le ([a.1.1; a.1.2], a.2) ([b.1.1; b.1.2], b.2).
Proof.
  unfold Treemap.item_le, Treemap.key_le. simpl.
  destruct (String.compare a.1.1 b.1.1); [|done..].
  by destruct (String.compare a.1.2 b.1.2).
Qed.

#[global] Instance item_le_total : Total Treemap.item_le.
Proof.
  intros a b. rewrite !item_le_key_le. apply (total Treemap.key_le).
Qed.

#[global] Instance item_le_trans : Transitive Treemap.item_le.
Proof.
  intros a b c. rewrite !item_le_key_le. apply (transitivity (R:=Treemap.key_le)).
Qed.

(** Sorting a sorted list leaves it as it is. *)
Lemma merge_sort_sorted (l : list (list string * nat)) :
  Sorted Treemap.key_le l → merge_sort Treemap.key_le l = l.
Proof.
  intros Hsorted. apply (Sorted_unique Treemap.key_le); [|done|].
  - apply Sorted_merge_sort. apply _.
  - apply merge_sort_Permutation.
Qed.

Lemma omap_lookup_seq {A : Type} (pre l : list A) :
  omap (λ i, (pre ++ l) !! i) (seq (length pre) (length l)) = l.
Proof.
  revert pre. induction l as [|x l IH]; intros pre; [done|].
  cbn [length seq omap list_omap]. rewrite list_lookup_middle by done.
  f_equal. specialize (IH (pre ++ [x])).
  rewrite length_app, <- (assoc_L (++)) in IH. simpl in IH.
  by rewrite Nat.add_1_r in IH.
Qed.

Lemma omap_lookup_all {A : Type} (l : list A) (n : nat) :
  n = length l → omap (λ i, l !! i) (seq 0 n) = l.
Proof. intros ->. apply (omap_lookup_seq [] l). Qed.

Lemma keyed_items_sorted (items : list (string * string * nat)) (start : nat) :
  StronglySorted Treemap.item_le items →
  Sorted Treemap.key_le
    (zip_with (λ (item : string * string * nat) (i : nat),
                 ([item.1.1; item.1.2], i))
              items (seq start (length items))).
Proof.
  revert start. induction items as [|a items IH]; intros start Hsorted.
  - constructor.
  - apply StronglySorted_inv in Hsorted as [Hsorted Hall].
    cbn [length seq zip_with]. constructor; [by apply IH|].
    destruct items as [|b items]; [constructor|].
    cbn [length seq zip_with]. constructor.
    apply Forall_cons in Hall as [Hab _]. apply item_le_key_le in Hab.
    unfold Treemap.key_le in Hab |- *. cbn [fst snd] in Hab |- *.
    destruct (Treemap.compare_keys [a.1.1; a.1.2] [b.1.1; b.1.2]);
      [lia|done..].
Qed.

Lemma keyed_rows (items : list (string * string * nat)) :
  map (λ i, (omap (λ cells : list string, cells !! i)
               [(λ item : string * string * nat, item.1.1) <$> items;
                (λ item : string * string * nat, item.1.2) <$> items], i))
      (seq 0 (length items))
  = zip_with (λ (item : string * string * nat) (i : nat),
                ([item.1.1; item.1.2], i))
             items (seq 0 (length items)).
Proof.
  apply list_eq. intros j.
  change (map ?f ?l) with (f <$> l). rewrite list_lookup_fmap, lookup_zip_with.
  destruct (decide (j < length items)) as [Hj|Hj].
  - rewrite lookup_seq_lt by done.
    destruct (lookup_lt_is_Some_2 items j Hj) as [item Hitem].
    rewrite Hitem. simpl. by rewrite !list_lookup_fmap, Hitem.
  - rewrite (lookup_ge_None_2 items) by lia.
    by rewrite lookup_ge_None_2 by (rewrite length_seq; lia).
Qed.

(** [sort_values] leaves the table of sorted items as it is. *)
Lemma sort_values_sheet (items : list (string * string * nat)) :
  StronglySorted Treemap.item_le items →
  Treemap.sort_values (sheet_of items) ["categories"; "Region"]
  = Ok (sheet_of items).
Proof.
  intros Hsorted. unfold Treemap.sort_values. cbn [mapM].
  assert (df_get (sheet_of items) "categories"
          = Ok (Str <$> ((λ item, item.1.1) <$> items))) as -> by done.
  assert (df_get (sheet_of items) "Region"
          = Ok (Str <$> ((λ item, item.1.2) <$> items))) as -> by done.
  cbn [mbind result_bind]. rewrite !strs_Str.
  cbn [mbind result_bind mret result_ret].
  change (df_len (sheet_of items)) with (length items).
  rewrite keyed_rows.
  rewrite merge_sort_sorted
    by (apply keyed_items_sorted, Hsorted).
  assert (map snd (zip_with (λ (item : string * string * nat) (i : nat),
                               ([item.1.1; item.1.2], i))
                            items (seq 0 (length items)))
          = seq 0 (length items)) as ->.
  { change (map snd ?l) with (snd <$> l).
    rewrite fmap_zip_with_r; [done|done|]. by rewrite length_seq. }
  unfold sheet_of. f_equal. cbn [df_columns map fst snd].
  rewrite !omap_lookup_all by (by rewrite !length_fmap). done.
Qed.

Lemma sorted_pairs_are_apart (items : list (string * string * nat)) :
  StronglySorted Treemap.item_le items → NoDup items.*1 →
  StronglySorted pair_lt items.*1.
Proof.
  induction items as [|a items IH]; intros Hsorted Hnd; [constructor|].
  apply StronglySorted_inv in Hsorted as [Hsorted Hall].
  rewrite fmap_cons in Hnd |- *. apply NoDup_cons in Hnd as [Hfresh Hnd].
  constructor; [by apply IH|].
  apply Forall_fmap, Forall_forall. intros b Hb.
  rewrite Forall_forall in Hall. specialize (Hall b Hb).
  assert (a.1 ≠ b.1) as Hne.
  { intros Heq. apply Hfresh. rewrite Heq. apply list_elem_of_fmap. by exists b. }
  unfold Treemap.item_le in Hall. unfold pair_lt. simpl.
  destruct (String.compare a.1.1 b.1.1) eqn:H1; [|by left|done].
  apply String.compare_eq_iff in H1. right. split; [done|].
  destruct (String.compare a.1.2 b.1.2) eqn:H2; [|done..].
  apply String.compare_eq_iff in H2. destruct Hne.
  destruct a as [[??]?], b as [[??]?]. simpl in *. congruence.
Qed.

Lemma counter_total_items (counter : gmap (string * string) nat)
    (items : list (string * string * nat)) :
  items ≡ₚ map_to_list counter →
  foldr Z.add 0%Z ((λ item, Z.of_nat item.2) <$> items)
  = Z.of_nat (counter_total counter).
Proof.
  intros Hperm. unfold counter_total. rewrite map_fold_foldr.
  assert (∀ l : list (string * string * nat),
            foldr (uncurry (λ (_ : string * string) (n acc : nat), n + acc)) 0 l
            = sum_list_with snd l) as ->.
  { induction l as [|[key n] l IH]; simpl; [done|]. by rewrite IH. }
  assert (∀ l : list (string * string * nat),
            foldr Z.add 0%Z ((λ item, Z.of_nat item.2) <$> l)
            = Z.of_nat (sum_list_with snd l)) as ->.
  { induction l as [|[key n] l IH]; [done|].
    rewrite fmap_cons. cbn [foldr]. rewrite IH. simpl. lia. }
  by rewrite Hperm.
Qed.

(** For an environment whose two listings are fetched, with some local
    unit, [process_environment] returns a sheet with the columns
    categories, Region and count and one row for every (type, region) pair
    of the tally, with its count; the rows are sorted by type name and then
    by region name, no pair comes twice, and the counts add up to the
    number of local units fetched.  No file is touched. *)
Theorem treemap_sheet_lists_every_pair_once (w : Treemap.World) (fuel : nat)
    (env_name : string) (urls : Treemap.Urls) (st : State)
    (countries : list Country) (local_units : list LocalUnit) :
  Treemap.fetch_paginated (Treemap.countries_at w) fuel (Treemap.country urls)
  = Some (Ok countries) →
  Treemap.fetch_paginated (Treemap.local_units_at w) fuel
    (Treemap.local_units urls)
  = Some (Ok local_units) →
  local_units ≠ [] →
  let counted :=
    Treemap.count_by_type_region
      (Treemap.build_country_to_region countries) local_units in
  ∃ items st',
    Treemap.process_environment w fuel env_name urls st
    = Some (Ok (Some (sheet_of items)), st')
    ∧ files st' = files st
    ∧ (∀ type_name region_name n,
         (type_name, region_name, n) ∈ items
         ↔ counted.1 !! (type_name, region_name) = Some n)
    ∧ StronglySorted pair_lt items.*1
    ∧ foldr Z.add 0%Z ((λ item, Z.of_nat item.2) <$> items)
      = Z.of_nat (length local_units).
Proof.
  intros Hcountries Hunits Hsome counted.
  set (items := merge_sort Treemap.item_le (map_to_list counted.1)).
  assert (items ≡ₚ map_to_list counted.1) as Hperm
    by apply merge_sort_Permutation.
  assert (StronglySorted Treemap.item_le items) as Hsorted
    by (apply StronglySorted_merge_sort; apply _).
  assert (items ≠ []) as Hitems.
  { intros Hnil. rewrite Hnil in Hperm. symmetry in Hperm.
    apply Permutation_nil_r, map_to_list_empty_iff in Hperm.
    destruct local_units as [|u units]; [done|].
    by apply (count_by_type_region_nonempty
                (Treemap.build_country_to_region countries) u units). }
  exists items. eexists. split; [|split; [|split; [|split]]].
  - unfold Treemap.process_environment. rewrite Hcountries, Hunits. cbv zeta.
    fold counted. fold items.
    rewrite (DataFrame_of_items items Hitems).
    change {| df_len := length items; df_columns := _ |} with (sheet_of items).
    rewrite (sort_values_sheet items Hsorted). reflexivity.
  - by case_decide.
  - intros type_name region_name n.
    rewrite Hperm. apply elem_of_map_to_list.
  - apply sorted_pairs_are_apart; [done|].
    rewrite Hperm. apply NoDup_fst_map_to_list.
  - rewrite (counter_total_items counted.1 items Hperm).
    unfold counted. rewrite count_by_type_region_counter, tally_total.
    unfold counter_total. by rewrite map_fold_empty.
Qed.

Lemma sheet_of_staging :
  let w :=
    treemap_staging_only
      [{| c_id := Some 1%Z; c_region := Some 2%Z |}]
      [{| lu_type_details := Some {| td_name := Some "B" |};
          lu_country := Some 1%Z |};
       {| lu_type_details := Some {| td_name := Some "A" |};
          lu_country := Some 7%Z |};
       {| lu_type_details := Some {| td_name := Some "B" |};
          lu_country := Some 1%Z |}] in
  let urls :=
    {| Treemap.local_units :=
         "https://goadmin-stage.ifrc.org/api/v2/local-units/";
       Treemap.country := "https://goadmin-stage.ifrc.org/api/v2/country/" |} in
  (∃ items st',
     Treemap.process_environment w 1 "staging" urls fresh
     = Some (Ok (Some (sheet_of items)), st')
     ∧ files st' = files fresh
     ∧ (∀ type_name region_name n,
          (type_name, region_name, n) ∈ items
          ↔ (Treemap.count_by_type_region
               (Treemap.build_country_to_region
                  [{| c_id := Some 1%Z; c_region := Some 2%Z |}])
               [{| lu_type_details := Some {| td_name := Some "B" |};
                   lu_country := Some 1%Z |};
                {| lu_type_details := Some {| td_name := Some "A" |};
                   lu_country := Some 7%Z |};
                {| lu_type_details := Some {| td_name := Some "B" |};
                   lu_country := Some 1%Z |}]).1
            !! (type_name, region_name) = Some n)
     ∧ StronglySorted pair_lt items.*1
     ∧ foldr Z.add 0%Z ((λ item, Z.of_nat item.2) <$> items) = 3%Z)
  ∧ fst <$> Treemap.process_environment w 1 "staging" urls fresh
    = Some (Ok (Some (sheet_of [("A", "Unknown Region", 1);
                                ("B", "Asia Pacific", 2)]))).
Proof.
  intros w urls. split; [|by vm_compute].
  apply (treemap_sheet_lists_every_pair_once w 1 "staging" urls fresh
           [{| c_id := Some 1%Z; c_region := Some 2%Z |}]); by vm_compute.
Defined.

(** ** Runs: what is written, what is left alone, which exceptions leave *)

(** In the table that the simple report writes, the count column of an
    environment fetched adds up to the number of records fetched from that
    environment, and no count is negative. *)
Theorem count_column_adds_up_to_the_records (w : Simple.World) (fuel : nat)
    (st st' : State) (env : string * string) (records : list LocalUnit) :
  Simple.main w fuel st = Some (Ok (), st') →
  env ∈ Simple.ENVIRONMENTS →
  Simple.fetch_all_local_units w fuel env.2 = Some (Ok records) →
  ∃ df counts,
    files st' !! Simple.OUTPUT_FILE = Some [("Local Unit Types", df)]
    ∧ df_get df ("count_" +:+ env.1) = Ok (Int <$> counts)
    ∧ foldr Z.add 0%Z counts = Z.of_nat (length records)
    ∧ Forall (λ n, (0 ≤ n)%Z) counts.
Proof.
  intros Hrun Henv Hfetch.
  assert ((env.1, Simple.count_types records)
          ∈ tallies w fuel Simple.ENVIRONMENTS) as Hin.
  { apply elem_of_tallies. by exists env, records. }
  assert (tallies w fuel Simple.ENVIRONMENTS ≠ []) as Hsome.
  { intros Hnil. rewrite Hnil in Hin. by apply elem_of_nil in Hin. }
  destruct (main_saves w fuel st st' Hrun Hsome) as [_ Hfile].
  eexists _, _. split; [exact Hfile|].
  pose proof (tallies_NoDup w fuel _ ENVIRONMENTS_NoDup) as Hnd.
  split; [exact (report_count _ _ Hnd _ Hin)|]. cbn [snd]. split.
  - rewrite column_total.
    + rewrite count_types_tally, tally_total.
      unfold counter_total. by rewrite map_fold_empty.
    + apply all_types_NoDup.
    + intros key Hkey. apply elem_of_all_types. eauto.
  - unfold count_cells. apply Forall_fmap, Forall_forall. intros key _.
    simpl. lia.
Qed.

Lemma count_column_of_three_A_one_B :
  ∃ df counts,
    files (state_after (Simple.main (staging_only three_A_one_B) 1 fresh))
      !! Simple.OUTPUT_FILE = Some [("Local Unit Types", df)]
    ∧ df_get df ("count_" +:+ "staging") = Ok (Int <$> counts)
    ∧ foldr Z.add 0%Z counts = Z.of_nat (length three_A_one_B)
    ∧ Forall (λ n, (0 ≤ n)%Z) counts.
Proof.
  apply (count_column_adds_up_to_the_records (staging_only three_A_one_B) 1
           fresh _ ("staging",
                    "https://goadmin-stage.ifrc.org/api/v2/local-units/")).
  - by vm_compute.
  - right. left.
  - by vm_compute.
Defined.

Section SimpleFrame.
Variables (w : Simple.World) (fuel : nat).

Lemma fetch_environments_frame envs env_counts st r st' :
  Simple.fetch_environments w fuel envs env_counts st = Some (r, st') →
  files st' = files st ∧ stdout st `prefix_of` stdout st'.
Proof.
  revert env_counts st.
  induction envs as [|[env_name base_url] envs IH]; intros env_counts st Hrun.
  - by simplify_eq/=.
  - cbn [Simple.fetch_environments] in Hrun.
    destruct (Simple.fetch_all_local_units w fuel base_url)
      as [[records|e]|]; [| |done].
    + by apply IH in Hrun.
    + destruct e; try (by simplify_eq/=);
        apply IH in Hrun as [Hfiles Hout]; (split; [done|]);
        (etrans; [|exact Hout]); by apply prefix_app_r.
Qed.

(** Lines 77-93: an exception of a fetch that is neither a connection
    error nor an HTTP error leaves [main]: the environments after it are
    not fetched, nothing is written, and only the warnings of the
    environments skipped before it have been printed. *)
Lemma fetch_environments_uncaught pre env post env_counts st e :
  (∀ p, p ∈ pre → settled w fuel p.2) →
  Simple.fetch_all_local_units w fuel env.2 = Some (Raise e) →
  caught e = false →
  Simple.fetch_environments w fuel (pre ++ env :: post) env_counts st
  = Some (Raise e, warned w fuel pre st).
Proof.
  revert env_counts st. induction pre as [|[p_name p_url] pre IH];
    intros env_counts st Hpre Hfetch Huncaught.
  - destruct env as [env_name base_url].
    cbn [app Simple.fetch_environments]. cbn [snd] in Hfetch.
    rewrite Hfetch, warned_nil. by destruct e.
  - specialize (λ env_counts st,
      IH env_counts st ltac:(intros; apply Hpre; by right) Hfetch Huncaught).
    assert (settled w fuel p_url) as Hs by (apply (Hpre (p_name, p_url)); left).
    cbn [app Simple.fetch_environments].
    unfold warned, warning_of, settled in *. cbn [omap list_omap fst snd].
    destruct (Simple.fetch_all_local_units w fuel p_url)
      as [[records|e']|]; [| |done].
    + by rewrite IH.
    + destruct e'; try done; rewrite IH; unfold print; simpl;
        by rewrite <- (assoc_L (++)).
Qed.

End SimpleFrame.

(** A run of the simple report touches no file but its output file, and
    that one only when it ends without exception; a run that raises leaves
    every file as it was.  What was printed before the run stays. *)
Theorem simple_run_writes_only_its_file (w : Simple.World) (fuel : nat)
    (st st' : State) (r : result unit) :
  Simple.main w fuel st = Some (r, st') →
  (∀ file, file ≠ Simple.OUTPUT_FILE → files st' !! file = files st !! file)
  ∧ (∀ e, r = Raise e → files st' = files st)
  ∧ stdout st `prefix_of` stdout st'.
Proof.
  unfold Simple.main, Simple.main_over. intros Hrun.
  destruct (Simple.fetch_environments w fuel Simple.ENVIRONMENTS [] st)
    as [[[env_counts|e] st1]|] eqn:Hfetch; [| |done].
  - apply fetch_environments_frame in Hfetch as [Hfiles Hout].
    destruct env_counts as [|p env_counts].
    + simplify_eq/=. rewrite Hfiles. split; [done|]. split; [done|].
      etrans; [exact Hout|]. by apply prefix_app_r.
    + destruct (Simple.build_table _ _) as [df|e]; simplify_eq/=.
      * split; [|split; [done|]].
        -- intros file Hfile. by rewrite lookup_insert_ne, Hfiles.
        -- etrans; [exact Hout|]. by apply prefix_app_r.
      * by rewrite Hfiles.
  - apply fetch_environments_frame in Hfetch as [Hfiles Hout].
    simplify_eq/=. by rewrite Hfiles.
Qed.

(** An exception of a fetch that is neither a connection error nor an HTTP
    error (a read timeout, say) leaves [main] of the simple report: the
    environments after it are not fetched, no file is written, and only
    the warnings of the environments skipped before it are printed. *)
Theorem uncaught_exception_ends_the_simple_run (w : Simple.World) (fuel : nat)
    (st : State) (pre post : list (string * string)) (env : string * string)
    (e : exn) :
  Simple.ENVIRONMENTS = pre ++ env :: post →
  (∀ p, p ∈ pre → settled w fuel p.2) →
  Simple.fetch_all_local_units w fuel env.2 = Some (Raise e) →
  caught e = false →
  Simple.main w fuel st = Some (Raise e, warned w fuel pre st).
Proof.
  intros Hsplit Hpre Hfetch Huncaught. unfold Simple.main, Simple.main_over.
  rewrite Hsplit.
  by rewrite (fetch_environments_uncaught w fuel pre env post [] st e).
Qed.

Lemma simple_run_keeps_other_files :
  (∀ file, file ≠ Simple.OUTPUT_FILE →
     files (state_after (Simple.main (staging_only three_A_one_B) 1 with_notes))
       !! file = files with_notes !! file)
  ∧ (∀ e, Ok () = Raise e →
       files (state_after (Simple.main (staging_only three_A_one_B) 1 with_notes))
       = files with_notes)
  ∧ stdout with_notes
    `prefix_of`
    stdout (state_after (Simple.main (staging_only three_A_one_B) 1 with_notes)).
Proof.
  apply (simple_run_writes_only_its_file (staging_only three_A_one_B) 1
           with_notes _ (Ok ())).
  by vm_compute.
Defined.

Lemma staging_timeout_ends_the_simple_run :
  Simple.main staging_times_out 1 fresh
  = Some (Raise ReadTimeout,
          warned staging_times_out 1
            [("production", "https://goadmin.ifrc.org/api/v2/local-units/")]
            fresh).
Proof.
  apply (uncaught_exception_ends_the_simple_run staging_times_out 1 fresh
           [("production", "https://goadmin.ifrc.org/api/v2/local-units/")]
           []
           ("staging", "https://goadmin-stage.ifrc.org/api/v2/local-units/")
           ReadTimeout).
  - reflexivity.
  - intros p Hp. apply list_elem_of_singleton in Hp as ->. by vm_compute.
  - by vm_compute.
  - reflexivity.
Defined.

Section TreemapFrame.
Variables (w : Treemap.World) (fuel : nat).

Lemma handler_frame env_name e st r st' :
  Treemap.handler env_name e st = (r, st') →
  files st' = files st ∧ stdout st `prefix_of` stdout st'.
Proof.
  destruct e; intros; simplify_eq/=; (split; [done|]);
    try done; by apply prefix_app_r.
Qed.

Lemma process_environment_frame env_name urls st r st' :
  Treemap.process_environment w fuel env_name urls st = Some (r, st') →
  files st' = files st ∧ stdout st `prefix_of` stdout st'.
Proof.
  unfold Treemap.process_environment.
  destruct (Treemap.fetch_paginated (Treemap.countries_at w) fuel _)
    as [[countries|e]|]; [| |done].
  - destruct (Treemap.fetch_paginated (Treemap.local_units_at w) fuel _)
      as [[units|e]|]; [| |done].
    + cbv zeta.
      set (st1 := if decide _ then st else _).
      assert (files st1 = files st ∧ stdout st `prefix_of` stdout st1)
        as [Hfiles Hout].
      { unfold st1. case_decide; [done|]. split; [done|].
        by apply prefix_app_r. }
      destruct (Treemap.sort_values _ _) as [df|e]; intros Hrun.
      * by simplify_eq.
      * injection Hrun as Hrun. apply handler_frame in Hrun as [Hfiles' Hout'].
        split; [congruence|]. by etrans.
    + intros Hrun. injection Hrun as Hrun. by apply handler_frame in Hrun.
  - intros Hrun. injection Hrun as Hrun. by apply handler_frame in Hrun.
Qed.

Lemma process_environments_frame envs all_sheets st r st' :
  Treemap.process_environments w fuel envs all_sheets st = Some (r, st') →
  files st' = files st ∧ stdout st `prefix_of` stdout st'.
Proof.
  revert all_sheets st.
  induction envs as [|[env_name urls] envs IH]; intros all_sheets st Hrun.
  - by simplify_eq/=.
  - cbn [Treemap.process_environments] in Hrun.
    destruct (Treemap.process_environment w fuel env_name urls st)
      as [[[[df|]|e] st1]|] eqn:Hp; [| | |done];
      apply process_environment_frame in Hp as [Hfiles Hout].
    + apply IH in Hrun as [Hfiles' Hout']. split; [congruence|]. by etrans.
    + apply IH in Hrun as [Hfiles' Hout']. split; [congruence|]. by etrans.
    + by simplify_eq.
Qed.

Lemma process_environment_escapes env_name urls st e :
  fetch_escapes w fuel urls e →
  Treemap.process_environment w fuel env_name urls st = Some (Raise e, st).
Proof.
  intros [Huncaught [Hc|(countries & Hc & Hu)]];
    unfold Treemap.process_environment; rewrite Hc; [|rewrite Hu];
    by destruct e.
Qed.

End TreemapFrame.

(** A run of the treemap report touches no file but its output file, and
    that one only when it ends without exception; a run that raises leaves
    every file as it was.  What was printed before the run stays. *)
Theorem treemap_run_writes_only_its_file (w : Treemap.World) (fuel : nat)
    (st st' : State) (r : result unit) :
  Treemap.main w fuel st = Some (r, st') →
  (∀ file, file ≠ Treemap.OUTPUT_FILE → files st' !! file = files st !! file)
  ∧ (∀ e, r = Raise e → files st' = files st)
  ∧ stdout st `prefix_of` stdout st'.
Proof.
  unfold Treemap.main, Treemap.main_over. intros Hrun.
  destruct (Treemap.process_environments w fuel Treemap.ENVIRONMENTS [] st)
    as [[[all_sheets|e] st1]|] eqn:Hp; [| |done];
    apply process_environments_frame in Hp as [Hfiles Hout].
  - destruct all_sheets as [|sheet all_sheets]; simplify_eq/=.
    + rewrite Hfiles. split; [done|]. split; [done|].
      etrans; [exact Hout|]. by apply prefix_app_r.
    + split; [|split; [done|]].
      * intros file Hfile. by rewrite lookup_insert_ne, Hfiles.
      * etrans; [exact Hout|]. by apply prefix_app_r.
  - simplify_eq/=. by rewrite Hfiles.
Qed.

Lemma treemap_run_keeps_other_files :
  (∀ file, file ≠ Treemap.OUTPUT_FILE →
     files (state_after (Treemap.main treemap_staging_times_out 1 with_notes))
       !! file = files with_notes !! file)
  ∧ (∀ e, @Raise unit ReadTimeout = Raise e →
       files (state_after (Treemap.main treemap_staging_times_out 1 with_notes))
       = files with_notes)
  ∧ stdout with_notes
    `prefix_of`
    stdout (state_after (Treemap.main treemap_staging_times_out 1 with_notes)).
Proof.
  apply (treemap_run_writes_only_its_file treemap_staging_times_out 1
           with_notes _ (Raise ReadTimeout)).
  by vm_compute.
Defined.

(** An exception of a listing that is neither a connection error nor an
    HTTP error leaves [main] of the treemap report, whether the countries
    or the local units were being listed: the environments after it are not
    processed, the sheets of the environments before it are lost, and no
    file is written. *)
Theorem uncaught_exception_ends_the_treemap_run (w : Treemap.World)
    (fuel : nat) (st : State) (pre post : list (string * Treemap.Urls))
    (env : string * Treemap.Urls) (e : exn) :
  Treemap.ENVIRONMENTS = pre ++ env :: post →
  (∀ p, p ∈ pre → cannot_fetch w fuel p.2 ∨ fetched_some w fuel p.2) →
  fetch_escapes w fuel env.2 e →
  ∃ st', Treemap.main w fuel st = Some (Raise e, st')
         ∧ files st' = files st.
Proof.
  intros Hsplit Hpre Hescapes. unfold Treemap.main, Treemap.main_over.
  rewrite Hsplit.
  assert (∀ all_sheets st0, ∃ st',
            Treemap.process_environments w fuel (pre ++ env :: post)
              all_sheets st0 = Some (Raise e, st')
            ∧ files st' = files st0) as Hloop.
  { clear Hsplit. induction pre as [|[p_name p_urls] pre IH];
      intros all_sheets st0.
    - destruct env as [env_name urls]. cbn [app Treemap.process_environments].
      rewrite (process_environment_escapes w fuel env_name urls st0 e Hescapes).
      by exists st0.
    - specialize (IH ltac:(intros; apply Hpre; by right)).
      cbn [app Treemap.process_environments].
      destruct (Hpre (p_name, p_urls) ltac:(left)) as [Hno|Hyes].
      + destruct (process_environment_cannot_fetch w fuel p_name p_urls st0 Hno)
          as [line ->].
        destruct (IH all_sheets (print line st0)) as (st' & -> & Hfiles).
        by exists st'.
      + destruct (process_environment_fetched w fuel p_name p_urls st0 Hyes)
          as (df & st1 & -> & Hfiles1).
        destruct (IH (all_sheets ++ [(p_name, df)]) st1) as (st' & -> & Hfiles).
        exists st'. split; [done|]. congruence. }
  destruct (Hloop [] st) as (st' & -> & Hfiles). by exists st'.
Qed.

Lemma staging_timeout_ends_the_treemap_run :
  ∃ st', Treemap.main treemap_staging_times_out 1 fresh
         = Some (Raise ReadTimeout, st')
         ∧ files st' = files fresh.
Proof.
  apply (uncaught_exception_ends_the_treemap_run treemap_staging_times_out 1
           fresh
           [("production",
             {| Treemap.local_units :=
                  "https://goadmin.ifrc.org/api/v2/local-units/";
                Treemap.country :=
                  "https://goadmin.ifrc.org/api/v2/country/" |})]
           []
           ("staging",
            {| Treemap.local_units :=
                 "https://goadmin-stage.ifrc.org/api/v2/local-units/";
               Treemap.country :=
                 "https://goadmin-stage.ifrc.org/api/v2/country/" |})
           ReadTimeout).
  - reflexivity.
  - intros p Hp. apply list_elem_of_singleton in Hp as ->. left. by vm_compute.
  - split; [reflexivity|]. right. exists []. by vm_compute.
Defined.
